(** * Safari image identification: the prediction aggregation pipeline

    A shallow embedding of [config.py] and of the aggregation code of
    [image_processor.py] ([SafariImageProcessor._predict_animal],
    [_predict_landscape], [_generate_new_filename], [process_single_image]).

    Modelling decisions, all of them visible in the definitions below:
    - Python [str] values are [string]s; [str.lower] is the ASCII lower-casing
      (the class names produced by [decode_predictions] are ASCII);
    - Python [dict]s keep insertion order, which the code relies on when it
      iterates over them; they are association lists whose keys are unique,
      new keys being added at the end;
    - confidences, thresholds and scores are rationals ([Q]): every machine
      number is one, and machine numbers compare as the rationals they are.
      [mean] is the exact mean, without the rounding of [np.mean]; where
      the value that [np.mean] returns matters, the score is computed by
      [final_scores_with], which takes [np.mean] as a parameter, and
      [np_mean_double] computes it in double precision;
    - a call into TensorFlow, PIL or the file system is a value of the
      [World] record: what the call returns, or the exception it raises. *)

From Stdlib Require Import Bool Arith NArith ZArith List Ascii String QArith Lia Lqa.
From Stdlib Require Import Permutation Sorted DecimalString DecimalNat.
From Stdlib Require Import PrimFloat.
Import ListNotations.

Open Scope string_scope.
Open Scope list_scope.
Open Scope Q_scope.

(** The decimal constants written below as doubles stand, as in Python, for
    the nearest double. *)
Set Warnings "-inexact-float".

(** ** Strings *)

Module Str.

(** One character of [str.lower()]: [A-Z] are moved to [a-z]. *)
Definition lower_ascii (c : ascii) : ascii :=
  let n := N_of_ascii c in
  if N.leb 65 n && N.leb n 90 then ascii_of_N (n + 32) else c.

(** [s.lower()] *)
Fixpoint lower (s : string) : string :=
  match s with
  | EmptyString => EmptyString
  | String c s' => String (lower_ascii c) (lower s')
  end.

(** [needle in hay] on two [str]: [needle] occurs in [hay] at some offset.
    The empty string occurs in every string. *)
Fixpoint contains (needle hay : string) : bool :=
  String.prefix needle hay ||
  match hay with
  | EmptyString => false
  | String _ hay' => contains needle hay'
  end.

(** [needle] occurs in [hay] when the case of letters is ignored. *)
Definition contains_ci (needle hay : string) : bool :=
  contains (lower needle) (lower hay).

(** [sep.join(parts)] *)
Fixpoint join (sep : string) (parts : list string) : string :=
  match parts with
  | [] => ""
  | [p] => p
  | p :: rest => (p ++ sep ++ join sep rest)%string
  end.

(** [n] zeros *)
Fixpoint zeros (n : nat) : string :=
  match n with
  | O => ""
  | S n' => String "0" (zeros n')
  end.

(** [f"{n:04d}"] for a count [n >= 0]: decimal digits, padded with zeros on
    the left up to width 4. *)
Definition format_04d (n : nat) : string :=
  let digits := NilEmpty.string_of_uint (Nat.to_uint n) in
  (zeros (4 - String.length digits) ++ digits)%string.

End Str.

(** ** Python dictionaries in insertion order *)

Module Dict.

Section Values.
Context {V : Type}.

Definition t := list (string * V).

(** [d.get(k)] *)
Fixpoint get (d : t) (k : string) : option V :=
  match d with
  | [] => None
  | (k', v) :: d' => if String.eqb k k' then Some v else get d' k
  end.

(** [k in d] *)
Definition mem (d : t) (k : string) : bool :=
  match get d k with Some _ => true | None => false end.

(** [d[k] = v]: an existing key keeps its place, a new one goes last. *)
Fixpoint set (d : t) (k : string) (v : V) : t :=
  match d with
  | [] => [(k, v)]
  | (k', v') :: d' =>
      if String.eqb k k' then (k', v) :: d' else (k', v') :: set d' k v
  end.

(** [d.keys()] *)
Definition keys (d : t) : list string := map fst d.

(** [d.get(k, default)] *)
Definition get_default (d : t) (k : string) (default : V) : V :=
  match get d k with Some v => v | None => default end.

End Values.

Arguments t : clear implicits.

End Dict.

(** ** config.py *)

Definition CategoryMap := Dict.t (list string).

Definition ANIMAL_CATEGORIES : CategoryMap :=
  [ ("ostrich", ["ostrich"; "common_ostrich"; "African_ostrich"]);
    ("bird", ["bird"; "crane"; "peacock"; "hornbill"; "vulture"; "eagle";
              "bustard"; "stork"]);
    ("elephant", ["elephant"; "African_elephant"; "Indian_elephant"; "tusker"]);
    ("monkey", ["monkey"; "macaque"; "baboon"; "chimpanzee"; "gorilla";
                "orangutan"; "langur"; "colobus"]);
    ("giraffe", ["giraffe"; "reticulated_giraffe"]);
    ("zebra", ["zebra"; "plains_zebra"; "Grevy_zebra"]);
    ("lion", ["lion"; "male_lion"; "lioness"; "African_lion"]);
    ("lion_cub", ["lion_cub"; "cub"; "young_lion"; "cat_baby"]);
    ("leopard", ["leopard"; "spotted_leopard"]);
    ("cheetah", ["cheetah"; "spotted_cat"; "running_cat"]);
    ("buffalo", ["buffalo"; "African_buffalo"; "water_buffalo"; "cape_buffalo"]);
    ("antelope", ["antelope"; "gazelle"; "impala"; "kudu"; "springbok";
                  "gemsbok"; "oryx"]);
    ("wildebeest", ["wildebeest"; "gnu"; "blue_wildebeest"]);
    ("hippopotamus", ["hippopotamus"; "hippo"; "river_horse"]);
    ("crocodile", ["crocodile"; "Nile_crocodile"; "alligator"]);
    ("hyena", ["hyena"; "spotted_hyena"; "striped_hyena"]) ].

Definition LANDSCAPE_CATEGORIES : CategoryMap :=
  [ ("river", ["river"; "stream"; "waterfall"; "waterway"; "creek"; "rapids"]);
    ("savannah", ["savannah"; "grassland"; "plain"; "prairie"; "veldt";
                  "steppe"]);
    ("forest", ["forest"; "woodland"; "jungle"; "trees"; "rainforest"; "grove"]);
    ("bush", ["bush"; "shrubland"; "thicket"; "scrub"; "brush"; "undergrowth"]);
    ("mountain", ["mountain"; "hill"; "cliff"; "ridge"; "peak"; "highland"]);
    ("wetland", ["wetland"; "marsh"; "swamp"; "bog"; "fen"; "mangrove"]);
    ("desert", ["desert"; "dune"; "sand"; "arid"; "wasteland"]);
    ("lake", ["lake"; "pond"; "reservoir"; "lagoon"; "water_body"]);
    ("valley", ["valley"; "gorge"; "ravine"; "canyon"; "depression"]) ].

Definition CONFIDENCE_THRESHOLDS : Dict.t Q :=
  [ ("lion_cub", 3 # 10);
    ("bird", 4 # 10);
    ("default", 35 # 100);
    ("landscape", 15 # 100) ].

(** [CONFIDENCE_THRESHOLDS[k]] for a key that the code looks up directly; the
    two keys so used, ['default'] and ['landscape'], are present. *)
Definition threshold_at (k : string) : Q :=
  Dict.get_default CONFIDENCE_THRESHOLDS k 0.

(** ** Predictions *)

(** One element of [decode_predictions(...)[0]]: the triple
    [(class_name, class_description, score)]. *)
Record Prediction := mkPrediction {
  pred_class : string;
  label : string;
  conf : Q
}.

(** [any(similar in label.lower() for similar in similar_labels)]: only the
    label is lower-cased, the keywords are used as they stand in the map. *)
Definition label_matches (similar_labels : list string) (lbl : string) : bool :=
  existsb (fun similar => Str.contains similar (Str.lower lbl)) similar_labels.

(** The case-insensitive test in the words of the specification: some keyword
    of the category is a substring of the raw label, case ignored. *)
Definition keyword_matches_ci (keywords : list string) (lbl : string) : bool :=
  existsb (fun kw => Str.contains_ci kw lbl) keywords.

(** A check on one keyword list that compensates for the keywords not being
    lower-cased by [label_matches]: every keyword, as written and lower-cased,
    contains a keyword of the same list that is written in lower case. *)
Definition case_covered (keywords : list string) : bool :=
  forallb
    (fun kw =>
       existsb
         (fun kw' =>
            String.eqb (Str.lower kw') kw'
            && Str.contains kw' kw
            && Str.contains kw' (Str.lower kw))
         keywords)
    keywords.

(** ** Calls that may raise *)

(** What a call into a library or the file system does: it returns a value or
    raises an [Exception] whose [str(e)] is [msg]. *)
Inductive outcome (A : Type) : Type :=
| Returned (a : A)
| Raised (msg : string).

Arguments Returned {A} a.
Arguments Raised {A} msg.

(** Sequencing inside one [try] block: the first exception ends the block. *)
Definition and_then {A B : Type} (x : outcome A) (k : A -> outcome B)
  : outcome B :=
  match x with
  | Returned a => k a
  | Raised msg => Raised msg
  end.

Notation "'try!' x <- e1 ; e2" := (and_then e1 (fun x => e2))
  (at level 61, x name, e1 at next level, right associativity).

(** ** Numbers *)

(** [a > b] on scores *)
Definition Qgt_bool (a b : Q) : bool := negb (Qle_bool a b).

(** [sum(l)] *)
Fixpoint Qsum (l : list Q) : Q :=
  match l with
  | [] => 0
  | x :: l' => x + Qsum l'
  end.

(** [np.mean(l)] of a non-empty list, in exact arithmetic: NumPy rounds the
    sum and the quotient to machine numbers, this definition does not. *)
Definition mean (l : list Q) : Q :=
  Qsum l / inject_Z (Z.of_nat (List.length l)).

(** Insertion of one score into a list sorted in descending order, before the
    first score that is not greater than it. *)
Fixpoint insert_desc (x : Q) (l : list Q) : list Q :=
  match l with
  | [] => [x]
  | y :: l' => if Qle_bool y x then x :: y :: l' else y :: insert_desc x l'
  end.

(** [sorted(scores, reverse=True)]: descending, and stable as Python's sort
    is (scores that compare equal keep the order they had). *)
Definition sorted_desc (scores : list Q) : list Q :=
  fold_right insert_desc [] scores.

(** ** The score aggregator of [_predict_animal] *)

(** The dictionary [pred_scores]: category to the confidences collected. *)
Definition Scores := Dict.t (list Q).

(** The body of the two [if]s, for one matching [category]:
    [[
      if category not in pred_scores:
          pred_scores[category] = []
      pred_scores[category].append(conf)
    ]] *)
Definition append_score (pred_scores : Scores) (category : string) (c : Q)
  : Scores :=
  let pred_scores1 :=
    if Dict.mem pred_scores category then pred_scores
    else Dict.set pred_scores category [] in
  Dict.set pred_scores1 category
    (Dict.get_default pred_scores1 category [] ++ [c]).

(** The inner loop
    [for category, similar_labels in self.animal_categories.items()]
    for one prediction [(_, label, conf)]. *)
Fixpoint collect_prediction (categories : CategoryMap) (lbl : string) (c : Q)
    (pred_scores : Scores) : Scores :=
  match categories with
  | [] => pred_scores
  | (category, similar_labels) :: categories' =>
      collect_prediction categories' lbl c
        (if label_matches similar_labels lbl
         then append_score pred_scores category c
         else pred_scores)
  end.

(** The outer loop [for _, label, conf in predictions_combined], started on
    the empty dictionary. *)
Definition collect_scores (categories : CategoryMap)
    (predictions_combined : list Prediction) : Scores :=
  fold_left
    (fun pred_scores p => collect_prediction categories (label p) (conf p)
                            pred_scores)
    predictions_combined [].

(** The order of a list sorted with [reverse=True]: no score is followed by
    a greater one. *)
Definition descending (a b : Q) : Prop := b <= a.

(** [sorted(scores, reverse=True)[:3]] *)
Definition top_scores (scores : list Q) : list Q :=
  firstn 3 (sorted_desc scores).

(** The loop [for category, scores in pred_scores.items()] that fills
    [final_predictions]; [if top_scores:] is the truth value of a list. *)
Definition final_scores (pred_scores : Scores) : Dict.t Q :=
  fold_left
    (fun final_predictions (item : string * list Q) =>
       let (category, scores) := item in
       match top_scores scores with
       | [] => final_predictions
       | _ :: _ => Dict.set final_predictions category
                     (mean (top_scores scores))
       end)
    pred_scores [].

(** [max(items, key=lambda x: x[1])] on a non-empty sequence: the running
    maximum is replaced only by an item whose key is strictly greater. *)
Definition max_by_score (first : string * Q) (rest : list (string * Q))
  : string * Q :=
  fold_left
    (fun best item => if Qgt_bool (snd item) (snd best) then item else best)
    rest first.

(** From [if final_predictions:] to the last [return None, 0.0] of the
    [try] block. *)
Definition best_prediction (final_predictions : Dict.t Q)
  : option string * Q :=
  match final_predictions with
  | [] => (None, 0)
  | first :: rest =>
      let best_category := max_by_score first rest in
      (Some (fst best_category), snd best_category)
  end.

(** AggregatedScore of the specification: [final_predictions] as computed
    from the combined raw predictions. *)
Definition aggregated_score (categories : CategoryMap)
    (predictions_combined : list Prediction) : Dict.t Q :=
  final_scores (collect_scores categories predictions_combined).

(** The aggregation part of [_predict_animal], lines 69 to 90. *)
Definition aggregate (categories : CategoryMap)
    (predictions_combined : list Prediction) : option string * Q :=
  best_prediction (aggregated_score categories predictions_combined).

(** The categories in the order in which the two nested loops meet them for
    the first time: predictions in list order, and for one prediction the
    matching categories in the order of the category map. *)
Fixpoint dedup (l : list string) (seen : list string) : list string :=
  match l with
  | [] => []
  | x :: l' =>
      if existsb (String.eqb x) seen then dedup l' seen
      else x :: dedup l' (x :: seen)
  end.

Definition matching_categories (categories : CategoryMap) (lbl : string)
  : list string :=
  map fst (filter (fun item => label_matches (snd item) lbl) categories).

Definition first_seen (categories : CategoryMap)
    (predictions_combined : list Prediction) : list string :=
  dedup (flat_map (fun p => matching_categories categories (label p))
                  predictions_combined) [].

(** ** The landscape detector of [_predict_landscape] *)

(** The inner loop [for category, keywords in self.landscape_categories.items()]
    for one prediction; [lbl] is the label already lower-cased by
    [label = label.lower()]. *)
Fixpoint detect_prediction (categories : CategoryMap) (lbl : string)
    (confidence : Q) (detected_features : list string) : list string :=
  match categories with
  | [] => detected_features
  | (category, keywords) :: categories' =>
      detect_prediction categories' lbl confidence
        (if existsb (fun keyword => Str.contains keyword lbl) keywords
         then
           if Qgt_bool confidence (threshold_at "landscape")
              && negb (existsb (String.eqb category) detected_features)
           then detected_features ++ [category]
           else detected_features
         else detected_features)
  end.

(** The loop [for pred_class, label, confidence in predictions], started on
    the empty list. *)
Definition detect_features (categories : CategoryMap)
    (predictions : list Prediction) : list string :=
  fold_left
    (fun detected_features p =>
       detect_prediction categories (Str.lower (label p)) (conf p)
         detected_features)
    predictions [].

(** ** The processor object and the world around it *)

(** A [pathlib.Path], by the three parts the code reads: [parent], [name]
    and [suffix]. *)
Record Path := mkPath {
  parent : string;
  name : string;
  suffix : string
}.

(** The calls by which the processor writes to the file system:
    [shutil.copy2] into the backup directory, the [try] block of
    [_add_metadata_tags] (from [piexif.load] to [piexif.insert]; the user
    comment is kept by its fields, not rendered) and [img_path.rename]. *)
Inductive Call : Type :=
| CopyToBackup (img_path : Path)
| InsertExif (img_path : Path) (animal_name : string) (confidence : Q)
    (landscape_str : string) (processed : string)
| Rename (img_path new_path : Path).

(** What the libraries answer when the processor calls them.
    - [predict_rows model_name img_path]: lines 59 to 67 for one model, from
      [get_model] to the last [decode_predictions]: the top-10 list of each
      of the four augmented images, or the exception raised on the way;
    - [predict_landscape_row img_path]: lines 99 to 109, the top-15 list;
    - [copy2], [exif_insert], [rename]: whether the call of that kind
      succeeds;
    - [today], [now_iso]: the two renderings of [datetime.now()]. *)
Record World := mkWorld {
  predict_rows : string -> Path -> outcome (list (list Prediction));
  predict_landscape_row : Path -> outcome (list Prediction);
  copy2 : Path -> outcome unit;
  exif_insert : Path -> outcome unit;
  rename : Path -> Path -> outcome unit;
  today : string;
  now_iso : string
}.

(** The fields of [SafariImageProcessor] that the methods below read or
    write. *)
Record Processor := mkProcessor {
  processed_count : nat;
  animal_categories : CategoryMap;
  landscape_categories : CategoryMap
}.

(** The mutable state of a run: the object and the calls made so far, the
    latest first. *)
Record State := mkState {
  self : Processor;
  calls : list Call
}.

(** A method: it reads and updates the state and returns a value. *)
Definition M (A : Type) : Type := State -> A * State.

Definition ret {A : Type} (a : A) : M A := fun st => (a, st).

Definition bind {A B : Type} (m : M A) (k : A -> M B) : M B :=
  fun st => let (a, st') := m st in k a st'.

Definition get_self : M Processor := fun st => (self st, st).

Definition call (c : Call) : M unit :=
  fun st => (tt, mkState (self st) (c :: calls st)).

Definition increment_processed_count : M nat :=
  fun st =>
    let p := self st in
    let n := S (processed_count p) in
    (n, mkState (mkProcessor n (animal_categories p) (landscape_categories p))
                (calls st)).

Notation "x <- e1 ;; e2" := (bind e1 (fun x => e2))
  (at level 61, e1 at next level, right associativity).
Notation "e1 ;;; e2" := (bind e1 (fun _ => e2))
  (at level 61, right associativity).

(** The loop [for model_name in ['resnet', 'efficient', 'dense']] of
    [_predict_animal]: it sits inside the [try] of the whole method, so the
    first exception leaves the loop. *)
Fixpoint run_models (w : World) (img_path : Path) (model_names : list string)
    (predictions_combined : list Prediction) : outcome (list Prediction) :=
  match model_names with
  | [] => Returned predictions_combined
  | model_name :: model_names' =>
      try! rows <- predict_rows w model_name img_path ;
      run_models w img_path model_names' (predictions_combined ++ List.concat rows)
  end.

Definition animal_models : list string := ["resnet"; "efficient"; "dense"].

(** The [try] block of [_predict_animal]. *)
Definition predict_animal_body (w : World) (categories : CategoryMap)
    (img_path : Path) : outcome (option string * Q) :=
  try! predictions_combined <- run_models w img_path animal_models [] ;
  Returned (aggregate categories predictions_combined).

(** [_predict_animal]: [except Exception] answers [None, 0.0]. *)
Definition _predict_animal (w : World) (img_path : Path)
  : M (option string * Q) :=
  p <- get_self ;;
  match predict_animal_body w (animal_categories p) img_path with
  | Returned r => ret r
  | Raised _ => ret (None, 0)
  end.

(** [_predict_landscape]: [except Exception] answers the empty list. *)
Definition _predict_landscape (w : World) (img_path : Path)
  : M (list string) :=
  p <- get_self ;;
  match predict_landscape_row w img_path with
  | Returned predictions =>
      ret (detect_features (landscape_categories p) predictions)
  | Raised _ => ret []
  end.

(** [sep.join(features) if features else "general"] *)
Definition landscape_string (sep : string) (landscape_features : list string)
  : string :=
  match landscape_features with
  | [] => "general"
  | _ :: _ => Str.join sep landscape_features
  end.

(** [_generate_new_filename] *)
Definition _generate_new_filename (w : World) (original_path : Path)
    (animal_name : string) (landscape_features : list string) : M Path :=
  n <- increment_processed_count ;;
  let timestamp := today w in
  let sequence := Str.format_04d n in
  let extension := Str.lower (suffix original_path) in
  let landscape_str := landscape_string "_" landscape_features in
  let new_name :=
    (animal_name ++ "_" ++ landscape_str ++ "_" ++ timestamp ++ "_"
       ++ sequence ++ extension)%string in
  ret (mkPath (parent original_path) new_name extension).

(** [_add_metadata_tags]: a failure is logged and goes no further. *)
Definition _add_metadata_tags (w : World) (img_path : Path)
    (animal_name : string) (confidence : Q)
    (landscape_features : list string) : M unit :=
  call (InsertExif img_path animal_name confidence
          (landscape_string ", " landscape_features) (now_iso w)) ;;;
  match exif_insert w img_path with
  | Returned _ => ret tt
  | Raised _ => ret tt
  end.

(** [_backup_image] *)
Definition _backup_image (w : World) (img_path : Path) : M bool :=
  call (CopyToBackup img_path) ;;;
  match copy2 w img_path with
  | Returned _ => ret true
  | Raised _ => ret false
  end.

(** The dictionary [results] of [process_single_image]. *)
Record Results := mkResults {
  original_name : string;
  success : bool;
  new_name : option string;
  animal : option string;
  confidence : option Q;
  landscape_features : option (list string);
  error : option string
}.

Definition set_error (r : Results) (msg : string) : Results :=
  mkResults (original_name r) (success r) (new_name r) (animal r)
    (confidence r) (landscape_features r) (Some msg).

(** The truth value of [animal_name]: [None] and the empty string are
    false. *)
Definition truthy (animal_name : option string) : bool :=
  match animal_name with
  | None => false
  | Some s => negb (String.eqb s "")
  end.

(** [CONFIDENCE_THRESHOLDS.get(animal_name, CONFIDENCE_THRESHOLDS['default'])];
    [None] is not a key of the dictionary. *)
Definition threshold_for (animal_name : option string) : Q :=
  match animal_name with
  | Some category =>
      Dict.get_default CONFIDENCE_THRESHOLDS category (threshold_at "default")
  | None => threshold_at "default"
  end.

(** The threshold gate: [animal_name and confidence > threshold]. *)
Definition accepts (animal_name : option string) (confidence : Q) : bool :=
  truthy animal_name && Qgt_bool confidence (threshold_for animal_name).

(** [f"{animal_name}"] *)
Definition format_name (animal_name : option string) : string :=
  match animal_name with
  | Some s => s
  | None => "None"
  end.

(** [process_single_image]. An exception can only come from
    [img_path.rename]; the handler then stores [str(e)] in the record, which
    by then holds the prediction but neither [new_name] nor [success]. *)
Definition process_single_image (w : World) (img_path : Path) : M Results :=
  let results0 :=
    mkResults (name img_path) false None None None None None in
  backed_up <- _backup_image w img_path ;;
  if negb backed_up then ret (set_error results0 "Backup failed")
  else
    prediction <- _predict_animal w img_path ;;
    let (animal_name, confidence) := prediction in
    landscape_features <- _predict_landscape w img_path ;;
    let results1 :=
      mkResults (name img_path) false None animal_name (Some confidence)
        (Some landscape_features) None in
    if accepts animal_name confidence then
      new_path <- _generate_new_filename w img_path (format_name animal_name)
                    landscape_features ;;
      _add_metadata_tags w img_path (format_name animal_name) confidence
        landscape_features ;;;
      call (Rename img_path new_path) ;;;
      match rename w img_path new_path with
      | Returned _ =>
          ret (mkResults (name img_path) true (Some (name new_path))
                 animal_name (Some confidence) (Some landscape_features)
                 None)
      | Raised msg => ret (set_error results1 msg)
      end
    else ret (set_error results1 "Low confidence prediction").

(** [__init__]: the counter starts at zero and the two category maps are
    those of [config.py]. *)
Definition init : State :=
  mkState (mkProcessor 0 ANIMAL_CATEGORIES LANDSCAPE_CATEGORIES) [].

(** No method assigns to the category maps of the object: they stay those
    that [__init__] stored. *)
Definition configured (st : State) : Prop :=
  animal_categories (self st) = ANIMAL_CATEGORIES
  /\ landscape_categories (self st) = LANDSCAPE_CATEGORIES.

(** *** The claim about failing classifiers, in the words of the
    specification *)

(** The predictions of the classifiers that answer; a classifier that fails
    contributes none. *)
Definition predictions_of_working_classifiers (w : World) (img_path : Path)
  : list Prediction :=
  flat_map
    (fun model_name =>
       match predict_rows w model_name img_path with
       | Returned rows => List.concat rows
       | Raised _ => []
       end)
    animal_models.

(** The claim that a failing classifier is skipped: whatever the world, the
    answer of [_predict_animal] is the aggregation of the predictions of the
    classifiers that work. *)
Definition failures_are_skipped : Prop :=
  forall (w : World) (img_path : Path),
    fst (_predict_animal w img_path init) =
    aggregate ANIMAL_CATEGORIES (predictions_of_working_classifiers w img_path).

(** The calls of one kind. *)
Definition is_rename (c : Call) : bool :=
  match c with Rename _ _ => true | _ => false end.

Definition is_insert_exif (c : Call) : bool :=
  match c with InsertExif _ _ _ _ _ => true | _ => false end.

(** ** Notions used to state what the loops compute *)

(** The confidences that one prediction adds under key [k]. *)
Definition added (categories : CategoryMap) (lbl : string) (c : Q)
    (k : string) : list Q :=
  match Dict.get categories k with
  | Some keywords => if label_matches keywords lbl then [c] else []
  | None => []
  end.

(** No key of [pred_scores] holds an empty list. *)
Definition filled (d : Scores) : Prop :=
  forall k, Dict.get d k <> Some [].

(** The confidences of the predictions whose label passes the test of the
    code for the keyword list stored under [k], in the order of the
    predictions. *)
Definition matching_confidences (categories : CategoryMap)
    (predictions : list Prediction) (k : string) : list Q :=
  match Dict.get categories k with
  | Some keywords =>
      map conf (filter (fun p => label_matches keywords (label p)) predictions)
  | None => []
  end.

(** One entry of [final_predictions]. *)
Definition final_entry (item : string * list Q) : string * Q :=
  (fst item, mean (top_scores (snd item))).

(** What makes [category] a legitimate entry of [detected_features]: a
    prediction above the landscape threshold whose lower-cased label contains
    one of the keywords of the category. *)
Definition triggered (categories : CategoryMap)
    (predictions : list Prediction) (category : string) : Prop :=
  exists keywords p keyword,
    In (category, keywords) categories /\ In p predictions
    /\ In keyword keywords
    /\ Str.contains keyword (Str.lower (label p)) = true
    /\ threshold_at "landscape" < conf p.

Definition sound (categories : CategoryMap) (predictions : list Prediction)
    (detected_features : list string) : Prop :=
  NoDup detected_features
  /\ Forall (triggered categories predictions) detected_features.

(** *** Sample inputs *)

Definition sample_image : Path := mkPath "safari" "IMG_0001.JPG" ".JPG".

Definition prediction_of (lbl : string) (c : Q) : Prediction :=
  mkPrediction "n00000000" lbl c.

(** A world in which every call succeeds; [rows] is what each of the three
    animal models answers and [row] what the landscape model answers. *)
Definition world_of (rows : string -> list (list Prediction))
    (row : list Prediction) : World :=
  mkWorld (fun model_name _ => Returned (rows model_name))
          (fun _ => Returned row)
          (fun _ => Returned tt) (fun _ => Returned tt)
          (fun _ _ => Returned tt)
          "20240131" "2024-01-31T12:00:00".

(** The same world, except that the model ['resnet'] fails to decode the
    image. *)
Definition world_resnet_fails (rows : string -> list (list Prediction))
    (row : list Prediction) : World :=
  mkWorld (fun model_name _ =>
             if String.eqb model_name "resnet"
             then Raised "cannot identify image file"
             else Returned (rows model_name))
          (fun _ => Returned row)
          (fun _ => Returned tt) (fun _ => Returned tt)
          (fun _ _ => Returned tt)
          "20240131" "2024-01-31T12:00:00".

(** The model ['efficient'] sees a lion in the first of the four augmented
    images, with confidence [c]; the other models see nothing they know. *)
Definition lion_seen (c : Q) (model_name : string) : list (list Prediction) :=
  if String.eqb model_name "efficient"
  then [[prediction_of "lion" c]; []; []; []]
  else [[prediction_of "tabby" (1 # 2)]; []; []; []].

Definition lion_rows : string -> list (list Prediction) := lion_seen (9 # 10).

Definition river_row : list Prediction :=
  [prediction_of "River_valley" (1 # 2); prediction_of "lakeside" (1 # 10)].

Definition five_lions : list Prediction :=
  [prediction_of "lion" (9 # 10); prediction_of "tiger" (95 # 100);
   prediction_of "African_lion" (8 # 10); prediction_of "lioness" (7 # 10);
   prediction_of "sea_lion" (6 # 10); prediction_of "LION" (5 # 10)].

(** ** The scores with [np.mean] as NumPy computes it *)

(** [final_scores] with the call [np.mean(top_scores)] left to the library:
    [np_mean] is whatever NumPy returns for a list of machine numbers. *)
Definition final_scores_with (np_mean : list Q -> Q) (pred_scores : Scores)
  : Dict.t Q :=
  fold_left
    (fun final_predictions (item : string * list Q) =>
       let (category, scores) := item in
       match top_scores scores with
       | [] => final_predictions
       | _ :: _ => Dict.set final_predictions category
                     (np_mean (top_scores scores))
       end)
    pred_scores [].

(** [final_predictions] of [_predict_animal], with that [np.mean]. *)
Definition aggregated_score_with (np_mean : list Q -> Q)
    (categories : CategoryMap) (predictions_combined : list Prediction)
  : Dict.t Q :=
  final_scores_with np_mean (collect_scores categories predictions_combined).


(** *** Lines 81 to 83 on double-precision numbers *)






(** [c in s] for a character [c]. *)
Fixpoint occurs (c : ascii) (s : string) : bool :=
  match s with
  | EmptyString => false
  | String a s' => Ascii.eqb a c || occurs c s'
  end.

(** ** [process_images] *)

Definition SUPPORTED_EXTENSIONS : list string := [".jpg"; ".jpeg"; ".png"].

(** [f.suffix.lower() in SUPPORTED_EXTENSIONS] *)
Definition supported (f : Path) : bool :=
  existsb (String.eqb (Str.lower (suffix f))) SUPPORTED_EXTENSIONS.

(** The loop [for img_path in image_files], with [results] as it grows. *)
Fixpoint process_loop (w : World) (image_files : list Path)
    (results : list Results) : M (list Results) :=
  match image_files with
  | [] => ret results
  | img_path :: image_files' =>
      result <- process_single_image w img_path ;;
      process_loop w image_files' (results ++ [result])
  end.

(** [process_images]; [listing] is what [self.source_dir.glob("*")] yields,
    in the order in which it yields it. *)
Definition process_images (w : World) (listing : list Path)
  : M (list Results) :=
  process_loop w (filter supported listing) [].

(** The file a call works on. *)
Definition call_target (c : Call) : Path :=
  match c with
  | CopyToBackup img_path => img_path
  | InsertExif img_path _ _ _ _ => img_path
  | Rename img_path _ => img_path
  end.

(** The calls that change the image itself. *)
Definition is_write (c : Call) : bool := is_rename c || is_insert_exif c.

(** ** [utils.analyze_results] *)

(** [d[k] = d.get(k, 0) + 1] *)
Definition bump (d : Dict.t nat) (k : string) : Dict.t nat :=
  Dict.set d k (Dict.get_default d k 0 + 1)%nat.

(** What the loop of [analyze_results] updates. *)
Record Tally := mkTally {
  tally_animals : Dict.t nat;
  tally_landscapes : Dict.t nat;
  total_confidence : Q;
  confidence_count : nat;
  tally_error_types : Dict.t nat
}.

(** The truth value of [result['confidence']]: [None] and [0.0] are
    false. *)
Definition truthy_confidence (c : option Q) : bool :=
  match c with
  | None => false
  | Some x => negb (Qeq_bool x 0)
  end.

(** The body of [for result in results]; [float_add] is the addition of
    Python floats in [total_confidence += result['confidence']]. *)
Definition tally_result (float_add : Q -> Q -> Q) (t : Tally)
    (result : Results) : Tally :=
  let animals1 :=
    if truthy (animal result)
    then bump (tally_animals t) (format_name (animal result))
    else tally_animals t in
  let landscapes1 :=
    match landscape_features result with
    | Some (f :: fs) => fold_left bump (f :: fs) (tally_landscapes t)
    | _ => tally_landscapes t
    end in
  let (total1, count1) :=
    match confidence result with
    | Some c =>
        if truthy_confidence (Some c)
        then (float_add (total_confidence t) c, S (confidence_count t))
        else (total_confidence t, confidence_count t)
    | None => (total_confidence t, confidence_count t)
    end in
  let errors1 :=
    if truthy (error result)
    then bump (tally_error_types t) (format_name (error result))
    else tally_error_types t in
  mkTally animals1 landscapes1 total1 count1 errors1.

(** The dictionary [stats]. *)
Record Stats := mkStats {
  total : nat;
  successful : nat;
  failed : nat;
  animals : Dict.t nat;
  landscapes : Dict.t nat;
  avg_confidence : Q;
  error_types : Dict.t nat
}.

(** [sum(1 for r in results if test(r))] *)
Definition count_if (test : Results -> bool) (results : list Results) : nat :=
  List.length (filter test results).

(** [analyze_results]; [float_add] and [float_div] are the addition of
    Python floats and the division of a float by an [int] in
    [total_confidence / confidence_count]: what they round to is left to
    Python. *)
Definition analyze_results (float_add : Q -> Q -> Q)
    (float_div : Q -> nat -> Q) (results : list Results) : Stats :=
  let t :=
    fold_left (tally_result float_add) results (mkTally [] [] 0 0%nat []) in
  mkStats (List.length results)
    (count_if success results)
    (count_if (fun r => negb (success r)) results)
    (tally_animals t) (tally_landscapes t)
    (if (0 <? confidence_count t)%nat
     then float_div (total_confidence t) (confidence_count t)
     else 0)
    (tally_error_types t).

(** ** [image_tester]: the status shown in preview mode *)

(** ['accepted': confidence > 0.35] of [test_all], the test of the status
    line of [preview_image_prediction] and [test_single]. *)
Definition preview_accepted (confidence : Q) : bool :=
  Qgt_bool confidence (35 # 100).

(** *** More sample inputs *)

(** A world in which the backup copy fails. *)
Definition world_backup_fails (rows : string -> list (list Prediction))
    (row : list Prediction) : World :=
  mkWorld (fun model_name _ => Returned (rows model_name))
          (fun _ => Returned row)
          (fun _ => Raised "No space left on device")
          (fun _ => Returned tt)
          (fun _ _ => Returned tt)
          "20240131" "2024-01-31T12:00:00".

(** A world in which the file cannot be renamed. *)
Definition world_rename_fails (rows : string -> list (list Prediction))
    (row : list Prediction) : World :=
  mkWorld (fun model_name _ => Returned (rows model_name))
          (fun _ => Returned row)
          (fun _ => Returned tt)
          (fun _ => Returned tt)
          (fun _ _ => Raised "Permission denied")
          "20240131" "2024-01-31T12:00:00".

Definition sample_listing : list Path :=
  [ sample_image;
    mkPath "safari" "notes.txt" ".txt";
    mkPath "safari" "IMG_0002.png" ".png";
    mkPath "safari" "backup" "" ].

(** * Properties *)

(** ** Substrings *)

Module StrFacts.
Import Str.

Lemma prefix_iff (n h : string) :
  String.prefix n h = true <-> exists post, h = (n ++ post)%string.
Proof.
  revert h; induction n as [|a n IH]; intros h.
  - destruct h; simpl; split; eauto.
  - destruct h as [|b h]; simpl.
    + split; [discriminate | intros [post E]; discriminate].
    + destruct (ascii_dec a b) as [->|Hab].
      * rewrite IH. split; intros [post E]; exists post.
        -- now rewrite E.
        -- now injection E.
      * split; [discriminate | intros [post E]; injection E; congruence].
Qed.

Lemma contains_iff (n h : string) :
  contains n h = true <->
  exists pre post, h = (pre ++ n ++ post)%string.
Proof.
  induction h as [|b h IH].
  - change (contains n "") with (String.prefix n "" || false).
    rewrite orb_false_r, prefix_iff. split.
    + intros [post E]. now exists "", post.
    + intros [pre [post E]]. destruct pre; [now exists post | discriminate].
  - change (contains n (String b h))
      with (String.prefix n (String b h) || contains n h).
    rewrite orb_true_iff, prefix_iff, IH. split.
    + intros [[post E] | [pre [post E]]].
      * now exists "", post.
      * exists (String b pre), post. simpl. now rewrite E.
    + intros [pre [post E]]. destruct pre as [|c pre]; simpl in E.
      * left. now exists post.
      * right. injection E as _ E. now exists pre, post.
Qed.

Lemma append_assoc (a b c : string) :
  ((a ++ b) ++ c = a ++ (b ++ c))%string.
Proof. induction a; simpl; congruence. Qed.

(** A substring of a substring is a substring. *)
Lemma contains_trans (a b c : string) :
  contains a b = true -> contains b c = true -> contains a c = true.
Proof.
  rewrite !contains_iff.
  intros [pre1 [post1 ->]] [pre2 [post2 ->]].
  exists (pre2 ++ pre1)%string, (post1 ++ post2)%string.
  now rewrite !append_assoc.
Qed.

Lemma contains_refl (a : string) : contains a a = true.
Proof.
  apply contains_iff. exists "", "". simpl.
  induction a; simpl; congruence.
Qed.

End StrFacts.

(** ** Matching a label against the keywords of a category *)

Lemma keyword_matches_ci_iff (keywords : list string) (lbl : string) :
  keyword_matches_ci keywords lbl = true <->
  exists kw, In kw keywords /\ Str.contains_ci kw lbl = true.
Proof. unfold keyword_matches_ci. now rewrite existsb_exists. Qed.

Section CaseCovered.
Variable keywords : list string.
Hypothesis covered : case_covered keywords = true.

Lemma covered_keyword (kw : string) :
  In kw keywords ->
  exists kw', In kw' keywords /\ Str.lower kw' = kw'
              /\ Str.contains kw' kw = true
              /\ Str.contains kw' (Str.lower kw) = true.
Proof.
  intros Hin. unfold case_covered in covered.
  rewrite forallb_forall in covered. specialize (covered kw Hin).
  apply existsb_exists in covered as [kw' [Hin' H]].
  apply andb_true_iff in H as [H H3]. apply andb_true_iff in H as [H1 H2].
  apply String.eqb_eq in H1. eauto 6.
Qed.

(** On a covered keyword list the test of the code and the
    case-insensitive test agree on every label. *)
Lemma label_matches_ci (lbl : string) :
  label_matches keywords lbl = keyword_matches_ci keywords lbl.
Proof.
  apply eq_true_iff_eq.
  unfold label_matches, keyword_matches_ci, Str.contains_ci.
  rewrite !existsb_exists.
  split; intros [kw [Hin H]];
    destruct (covered_keyword kw Hin) as [kw' [Hin' [Hl [H1 H2]]]];
    exists kw'; (split; [exact Hin'|]).
  - rewrite Hl. exact (StrFacts.contains_trans _ _ _ H1 H).
  - exact (StrFacts.contains_trans _ _ _ H2 H).
Qed.

End CaseCovered.

Lemma animal_keywords_covered :
  forallb (fun item => case_covered (snd item)) ANIMAL_CATEGORIES = true.
Proof. vm_compute. reflexivity. Qed.

Lemma landscape_keywords_covered :
  forallb (fun item => case_covered (snd item)) LANDSCAPE_CATEGORIES = true.
Proof. vm_compute. reflexivity. Qed.

Lemma animal_label_matches_ci (category : string) (keywords : list string)
    (lbl : string) :
  In (category, keywords) ANIMAL_CATEGORIES ->
  label_matches keywords lbl = keyword_matches_ci keywords lbl.
Proof.
  intros Hin. apply label_matches_ci.
  pose proof animal_keywords_covered as H.
  rewrite forallb_forall in H. exact (H _ Hin).
Qed.

(** The keywords are used as written: one with a capital letter never occurs
    in a lower-cased label, so the agreement above needs the cover. *)
Example uncovered_keyword_is_dead :
  label_matches ["African_lion"] "African_lion" = false
  /\ keyword_matches_ci ["African_lion"] "African_lion" = true.
Proof. split; reflexivity. Qed.

(** ** Dictionaries *)

Module DictFacts.
Import Dict.

Section Facts.
Context {V : Type}.
Implicit Types (d : Dict.t V) (k : string) (v : V).

Lemma get_set_same d k v : get (set d k v) k = Some v.
Proof.
  induction d as [|[k' v'] d IH]; simpl.
  - now rewrite String.eqb_refl.
  - destruct (String.eqb k k') eqn:E; simpl; rewrite E; auto.
Qed.

Lemma get_set_other d k k' v :
  k' <> k -> get (set d k v) k' = get d k'.
Proof.
  intros Hne. apply String.eqb_neq in Hne.
  induction d as [|[k0 v0] d IH]; simpl.
  - now rewrite Hne.
  - destruct (String.eqb k k0) eqn:E; simpl.
    + apply String.eqb_eq in E. subst k0. now rewrite Hne.
    + now rewrite IH.
Qed.

Lemma get_None_iff d k : get d k = None <-> ~ In k (keys d).
Proof.
  induction d as [|[k' v'] d IH]; simpl.
  - tauto.
  - destruct (String.eqb k k') eqn:E.
    + apply String.eqb_eq in E. subst. split; [discriminate | tauto].
    + apply String.eqb_neq in E. rewrite IH. intuition congruence.
Qed.

Lemma mem_true_iff d k : mem d k = true <-> In k (keys d).
Proof.
  unfold mem. pose proof (get_None_iff d k) as H.
  destruct (get d k).
  - split; [intros _ | reflexivity].
    destruct (in_dec string_dec k (keys d)) as [Hin|Hn]; [exact Hin|].
    apply H in Hn. discriminate.
  - split; [discriminate|]. intros Hin. now apply H in Hin.
Qed.

Lemma set_absent d k v : get d k = None -> set d k v = d ++ [(k, v)].
Proof.
  induction d as [|[k' v'] d IH]; simpl; [reflexivity|].
  destruct (String.eqb k k'); [discriminate|].
  intros H. now rewrite IH.
Qed.

Lemma keys_set_present d k v : In k (keys d) -> keys (set d k v) = keys d.
Proof.
  induction d as [|[k' v'] d IH]; simpl; [tauto|].
  destruct (String.eqb k k') eqn:E; simpl; [reflexivity|].
  apply String.eqb_neq in E.
  intros [H|H]; [congruence|]. f_equal. now apply IH.
Qed.

Lemma keys_set d k v :
  keys (set d k v) = if mem d k then keys d else keys d ++ [k].
Proof.
  destruct (mem d k) eqn:E.
  - apply keys_set_present. now apply mem_true_iff.
  - unfold mem in E. destruct (get d k) eqn:G; [discriminate|].
    rewrite (set_absent _ _ _ G). unfold keys. now rewrite map_app.
Qed.

Lemma get_In d k v : get d k = Some v -> In (k, v) d.
Proof.
  induction d as [|[k' v'] d IH]; simpl; [discriminate|].
  destruct (String.eqb k k') eqn:E.
  - apply String.eqb_eq in E. intros [= ->]. left. now subst.
  - auto.
Qed.

Lemma In_get d k v : NoDup (keys d) -> In (k, v) d -> get d k = Some v.
Proof.
  induction d as [|[k' v'] d IH]; simpl; [tauto|].
  intros Hnd [H|H]; inversion Hnd; subst.
  - injection H as -> ->. now rewrite String.eqb_refl.
  - destruct (String.eqb k k') eqn:E; [|auto].
    apply String.eqb_eq in E. subst k'.
    exfalso. apply H2. change k with (fst (k, v)). now apply in_map.
Qed.

Lemma get_app d d' k :
  get (d ++ d') k = match get d k with Some v => Some v | None => get d' k end.
Proof.
  induction d as [|[k' v'] d IH]; simpl; [reflexivity|].
  now destruct (String.eqb k k').
Qed.

End Facts.

Lemma animal_keys_nodup : NoDup (keys ANIMAL_CATEGORIES).
Proof.
  apply (NoDup_count_occ' string_dec).
  intros x Hin. simpl in Hin.
  repeat (destruct Hin as [<-|Hin]; [vm_compute; reflexivity|]).
  contradiction.
Qed.

Lemma landscape_keys_nodup : NoDup (keys LANDSCAPE_CATEGORIES).
Proof.
  apply (NoDup_count_occ' string_dec).
  intros x Hin. simpl in Hin.
  repeat (destruct Hin as [<-|Hin]; [vm_compute; reflexivity|]).
  contradiction.
Qed.

End DictFacts.

(** ** What the collecting loops store *)

Section Collect.
Import Dict DictFacts.

Implicit Types (d : Scores) (k : string) (c : Q).

Lemma append_score_get_same d k c :
  get (append_score d k c) k = Some (get_default d k [] ++ [c]).
Proof.
  unfold append_score. rewrite get_set_same. do 2 f_equal.
  unfold get_default, mem.
  destruct (get d k) eqn:G; [now rewrite G|].
  now rewrite get_set_same.
Qed.

Lemma append_score_get_other d k k' c :
  k' <> k -> get (append_score d k c) k' = get d k'.
Proof.
  intros Hne. unfold append_score. rewrite get_set_other by exact Hne.
  destruct (mem d k); [reflexivity|]. now apply get_set_other.
Qed.

Lemma append_score_keys d k c :
  keys (append_score d k c) = if mem d k then keys d else keys d ++ [k].
Proof.
  unfold append_score. rewrite keys_set.
  destruct (mem d k) eqn:E; [now rewrite E|].
  rewrite keys_set, E.
  assert (mem (set d k []) k = true) as ->; [|reflexivity].
  unfold mem. now rewrite get_set_same.
Qed.

Lemma collect_prediction_get (categories : CategoryMap) lbl c :
  NoDup (keys categories) ->
  forall d k,
    get_default (collect_prediction categories lbl c d) k [] =
    get_default d k [] ++ added categories lbl c k.
Proof.
  unfold added.
  induction categories as [|[k0 kws0] cats IH]; intros Hnd d k; simpl.
  - now rewrite app_nil_r.
  - inversion Hnd as [|? ? Hnotin Hnd']; subst.
    rewrite (IH Hnd'). clear IH.
    destruct (String.eqb k k0) eqn:E.
    + apply String.eqb_eq in E. subst k0.
      apply get_None_iff in Hnotin. rewrite Hnotin, app_nil_r.
      destruct (label_matches kws0 lbl); [|now rewrite app_nil_r].
      unfold get_default at 1. now rewrite append_score_get_same.
    + apply String.eqb_neq in E.
      destruct (label_matches kws0 lbl); [|reflexivity].
      unfold get_default at 1. rewrite append_score_get_other by exact E.
      reflexivity.
Qed.

Lemma append_score_filled d k c : filled d -> filled (append_score d k c).
Proof.
  intros H k'. destruct (string_dec k' k) as [->|Hne].
  - rewrite append_score_get_same.
    intros [= E]. now destruct (get_default d k []).
  - rewrite append_score_get_other by exact Hne. apply H.
Qed.

Lemma collect_prediction_filled (categories : CategoryMap) lbl c d :
  filled d -> filled (collect_prediction categories lbl c d).
Proof.
  revert d. induction categories as [|[k0 kws0] cats IH]; intros d H; simpl.
  - exact H.
  - apply IH. destruct (label_matches kws0 lbl); [|exact H].
    now apply append_score_filled.
Qed.

Lemma filled_get_None d k :
  filled d -> (get d k = None <-> get_default d k [] = []).
Proof.
  intros H. unfold get_default. specialize (H k).
  destruct (get d k) as [l|]; [|tauto].
  split; [discriminate|]. intros ->. congruence.
Qed.

Lemma fold_collect_get (categories : CategoryMap) :
  NoDup (keys categories) ->
  forall predictions d k,
    get_default
      (fold_left
         (fun pred_scores p =>
            collect_prediction categories (label p) (conf p) pred_scores)
         predictions d) k [] =
    get_default d k [] ++ matching_confidences categories predictions k.
Proof.
  intros Hnd. unfold matching_confidences.
  induction predictions as [|p ps IH]; intros d k; simpl.
  - destruct (get categories k); now rewrite app_nil_r.
  - rewrite IH, (collect_prediction_get _ _ _ Hnd), <- app_assoc.
    f_equal. unfold added.
    destruct (get categories k) as [kws|]; [|reflexivity].
    now destruct (label_matches kws (label p)).
Qed.

Lemma fold_collect_filled (categories : CategoryMap) predictions :
  forall d, filled d ->
    filled
      (fold_left
         (fun pred_scores p =>
            collect_prediction categories (label p) (conf p) pred_scores)
         predictions d).
Proof.
  induction predictions as [|p ps IH]; intros d H; simpl; [exact H|].
  apply IH. now apply collect_prediction_filled.
Qed.

(** [pred_scores] after the two loops: under each category, exactly the
    confidences of the matching predictions. *)
Lemma collect_scores_get (categories : CategoryMap) predictions k :
  NoDup (keys categories) ->
  get_default (collect_scores categories predictions) k [] =
  matching_confidences categories predictions k.
Proof.
  intros Hnd. unfold collect_scores.
  now rewrite (fold_collect_get _ Hnd).
Qed.

Lemma collect_scores_filled (categories : CategoryMap) predictions :
  filled (collect_scores categories predictions).
Proof. apply fold_collect_filled. intros k. discriminate. Qed.

Lemma collect_scores_get_Some (categories : CategoryMap) predictions k :
  NoDup (keys categories) ->
  get (collect_scores categories predictions) k =
  match matching_confidences categories predictions k with
  | [] => None
  | l => Some l
  end.
Proof.
  intros Hnd.
  pose proof (collect_scores_get categories predictions k Hnd) as G.
  pose proof (filled_get_None _ k
                (collect_scores_filled categories predictions)) as N.
  pose proof (collect_scores_filled categories predictions k) as F.
  unfold get_default in *.
  destruct (get (collect_scores categories predictions) k) as [l|].
  - rewrite <- G. destruct l; [congruence | reflexivity].
  - now rewrite <- G.
Qed.

End Collect.

(** ** Order of the keys of [pred_scores] *)

Section FirstSeen.
Import Dict DictFacts.

Lemma existsb_eqb_In (x : string) (l : list string) :
  existsb (String.eqb x) l = true <-> In x l.
Proof.
  rewrite existsb_exists. split.
  - intros [y [Hin E]]. apply String.eqb_eq in E. now subst.
  - intros Hin. exists x. split; [exact Hin | apply String.eqb_refl].
Qed.

Lemma existsb_eqb_ext (x : string) (s s' : list string) :
  (forall y, In y s <-> In y s') ->
  existsb (String.eqb x) s = existsb (String.eqb x) s'.
Proof.
  intros H. apply eq_true_iff_eq. rewrite !existsb_eqb_In. apply H.
Qed.

Lemma dedup_ext (l : list string) :
  forall s s', (forall y, In y s <-> In y s') -> dedup l s = dedup l s'.
Proof.
  induction l as [|x l IH]; intros s s' H; simpl; [reflexivity|].
  rewrite (existsb_eqb_ext x s s' H).
  destruct (existsb (String.eqb x) s').
  - now apply IH.
  - f_equal. apply IH. intros y. simpl. rewrite H. tauto.
Qed.

Lemma dedup_app (l1 l2 : list string) :
  forall s, dedup (l1 ++ l2) s = dedup l1 s ++ dedup l2 (s ++ dedup l1 s).
Proof.
  induction l1 as [|x l1 IH]; intros s; simpl.
  - now rewrite app_nil_r.
  - destruct (existsb (String.eqb x) s); [apply IH|].
    simpl. f_equal. rewrite IH. f_equal. apply dedup_ext.
    intros y. simpl. rewrite !in_app_iff. simpl. tauto.
Qed.

Lemma dedup_fresh (l s : list string) (x : string) :
  In x (dedup l s) -> ~ In x s.
Proof.
  revert s. induction l as [|y l IH]; intros s; simpl; [tauto|].
  destruct (existsb (String.eqb y) s) eqn:E; [apply IH|].
  intros [<-|H].
  - rewrite <- existsb_eqb_In. congruence.
  - apply IH in H. simpl in H. tauto.
Qed.

Lemma dedup_nodup (l : list string) : forall s, NoDup (dedup l s).
Proof.
  induction l as [|y l IH]; intros s; simpl; [constructor|].
  destruct (existsb (String.eqb y) s); [apply IH|].
  constructor; [|apply IH].
  intros H. apply dedup_fresh in H. simpl in H. tauto.
Qed.

Lemma dedup_In (l : list string) (x : string) :
  forall s, In x (dedup l s) -> In x l.
Proof.
  induction l as [|y l IH]; intros s; simpl; [tauto|].
  destruct (existsb (String.eqb y) s).
  - intros H. right. eapply IH, H.
  - intros [H|H]; [now left | right; eapply IH, H].
Qed.

Lemma collect_prediction_keys (categories : CategoryMap) (lbl : string)
    (c : Q) :
  forall d : Scores,
    keys (collect_prediction categories lbl c d) =
    keys d ++ dedup (matching_categories categories lbl) (keys d).
Proof.
  unfold matching_categories.
  induction categories as [|[k0 kws0] cats IH]; intros d; simpl.
  - now rewrite app_nil_r.
  - rewrite IH. clear IH.
    destruct (label_matches kws0 lbl); [|reflexivity].
    simpl. rewrite append_score_keys.
    destruct (mem d k0) eqn:E.
    + apply mem_true_iff, existsb_eqb_In in E. now rewrite E.
    + assert (existsb (String.eqb k0) (keys d) = false) as ->.
      { apply not_true_is_false. rewrite existsb_eqb_In, <- mem_true_iff.
        congruence. }
      rewrite <- app_assoc. simpl. do 2 f_equal. apply dedup_ext.
      intros y. rewrite in_app_iff. simpl. tauto.
Qed.

Lemma fold_collect_keys (categories : CategoryMap) predictions :
  forall d : Scores,
    keys
      (fold_left
         (fun pred_scores p =>
            collect_prediction categories (label p) (conf p) pred_scores)
         predictions d) =
    keys d ++
    dedup (flat_map (fun p => matching_categories categories (label p))
                    predictions) (keys d).
Proof.
  induction predictions as [|p ps IH]; intros d; simpl.
  - now rewrite app_nil_r.
  - rewrite IH, collect_prediction_keys, dedup_app, app_assoc. reflexivity.
Qed.

(** The keys of [pred_scores] come in first-seen order. *)
Lemma collect_scores_keys (categories : CategoryMap) predictions :
  keys (collect_scores categories predictions) =
  first_seen categories predictions.
Proof. unfold collect_scores. now rewrite fold_collect_keys. Qed.

Lemma collect_scores_nodup (categories : CategoryMap) predictions :
  NoDup (keys (collect_scores categories predictions)).
Proof. rewrite collect_scores_keys. apply dedup_nodup. Qed.

Lemma first_seen_In (categories : CategoryMap) predictions (k : string) :
  In k (first_seen categories predictions) ->
  exists p keywords,
    In p predictions /\ In (k, keywords) categories
    /\ label_matches keywords (label p) = true.
Proof.
  intros H. apply dedup_In in H. apply in_flat_map in H as [p [Hp H]].
  unfold matching_categories in H. apply in_map_iff in H as [[k' kws] [E H]].
  apply filter_In in H as [Hin Hm]. simpl in *. subst k'.
  now exists p, kws.
Qed.

End FirstSeen.

(** ** Sorting, the top three and the mean *)

Section Numbers.

Lemma Qgt_bool_iff (a b : Q) : Qgt_bool a b = true <-> b < a.
Proof.
  unfold Qgt_bool. rewrite negb_true_iff, <- not_true_iff_false, Qle_bool_iff.
  split; [apply Qnot_le_lt | apply Qlt_not_le].
Qed.

Lemma Qgt_bool_false_iff (a b : Q) : Qgt_bool a b = false <-> a <= b.
Proof.
  unfold Qgt_bool. rewrite negb_false_iff. apply Qle_bool_iff.
Qed.

Lemma insert_desc_perm (x : Q) (l : list Q) :
  Permutation (insert_desc x l) (x :: l).
Proof.
  induction l as [|y l IH]; simpl; [reflexivity|].
  destruct (Qle_bool y x); [reflexivity|].
  rewrite IH. apply perm_swap.
Qed.

Lemma sorted_desc_perm (l : list Q) : Permutation (sorted_desc l) l.
Proof.
  induction l as [|x l IH]; simpl; [reflexivity|].
  rewrite insert_desc_perm. now constructor.
Qed.

Lemma sorted_desc_length (l : list Q) :
  List.length (sorted_desc l) = List.length l.
Proof. apply Permutation_length, sorted_desc_perm. Qed.

Lemma insert_desc_sorted (x : Q) (l : list Q) :
  StronglySorted descending l -> StronglySorted descending (insert_desc x l).
Proof.
  induction l as [|y l IH]; intros H; simpl.
  - repeat constructor.
  - inversion H as [|? ? Hs Hf]; subst.
    destruct (Qle_bool y x) eqn:E.
    + apply Qle_bool_iff in E. constructor; [exact H|].
      constructor; [exact E|].
      eapply Forall_impl; [|exact Hf].
      intros z Hz. unfold descending in *. now apply Qle_trans with y.
    + constructor; [now apply IH|].
      apply (Permutation_Forall (Permutation_sym (insert_desc_perm x l))).
      constructor; [|exact Hf].
      unfold descending. apply Qlt_le_weak, Qnot_le_lt.
      rewrite <- Qle_bool_iff. congruence.
Qed.

Lemma sorted_desc_sorted (l : list Q) : StronglySorted descending (sorted_desc l).
Proof.
  induction l as [|x l IH]; simpl; [constructor|].
  now apply insert_desc_sorted.
Qed.

Lemma StronglySorted_app_inv (l1 l2 : list Q) :
  StronglySorted descending (l1 ++ l2) ->
  StronglySorted descending l1 /\
  forall x y, In x l1 -> In y l2 -> y <= x.
Proof.
  induction l1 as [|a l1 IH]; simpl; intros H.
  - split; [constructor | tauto].
  - inversion H as [|? ? Hs Hf]; subst.
    destruct (IH Hs) as [IH1 IH2].
    apply Forall_app in Hf as [Hf1 Hf2]. split.
    + now constructor.
    + intros x y [<-|Hx] Hy; [|now apply IH2].
      rewrite Forall_forall in Hf2. exact (Hf2 y Hy).
Qed.

(** [top_scores] in words: the scores split into the kept ones and the
    rest; at most three are kept, all three when there are as many; the kept
    ones are in descending order and none of the rest exceeds any of them. *)
Lemma top_scores_spec (scores : list Q) :
  exists rest,
    Permutation scores (top_scores scores ++ rest)
    /\ List.length (top_scores scores) = Nat.min 3 (List.length scores)
    /\ StronglySorted descending (top_scores scores)
    /\ forall x y, In x (top_scores scores) -> In y rest -> y <= x.
Proof.
  unfold top_scores. exists (skipn 3 (sorted_desc scores)).
  pose proof (sorted_desc_sorted scores) as Hs.
  rewrite <- (firstn_skipn 3 (sorted_desc scores)) in Hs.
  apply StronglySorted_app_inv in Hs as [Hs1 Hs2].
  repeat split.
  - rewrite firstn_skipn. symmetry. apply sorted_desc_perm.
  - now rewrite length_firstn, sorted_desc_length.
  - exact Hs1.
  - exact Hs2.
Qed.

Lemma top_scores_nonempty (scores : list Q) :
  scores <> [] -> top_scores scores <> [].
Proof.
  intros H E. apply (f_equal (@List.length Q)) in E.
  destruct (top_scores_spec scores) as [_ [_ [L _]]].
  rewrite L in E. destruct scores; [congruence | simpl in E; lia].
Qed.

Lemma top_scores_In (scores : list Q) (x : Q) :
  In x (top_scores scores) -> In x scores.
Proof.
  intros H. unfold top_scores in H.
  eapply Permutation_in; [apply sorted_desc_perm|].
  rewrite <- (firstn_skipn 3 (sorted_desc scores)).
  apply in_or_app. now left.
Qed.

Lemma Qsum_bounds (l : list Q) :
  (forall x, In x l -> 0 <= x <= 1) ->
  0 <= Qsum l <= inject_Z (Z.of_nat (List.length l)).
Proof.
  induction l as [|x l IH]; intros H.
  - simpl. split; apply Qle_refl.
  - assert (0 <= x <= 1) as [Hx0 Hx1] by (apply H; now left).
    destruct IH as [I0 I1]; [intros y Hy; apply H; now right|].
    change (List.length (x :: l)) with (S (List.length l)).
    rewrite Nat2Z.inj_succ. unfold Z.succ. rewrite inject_Z_plus.
    change (Qsum (x :: l)) with (x + Qsum l).
    change (inject_Z 1) with 1. split; lra.
Qed.

(** The mean of numbers of [[0,1]] is in [[0,1]]. *)
Lemma mean_bounds (l : list Q) :
  l <> [] -> (forall x, In x l -> 0 <= x <= 1) -> 0 <= mean l <= 1.
Proof.
  intros Hne H. destruct (Qsum_bounds l H) as [H0 H1]. unfold mean.
  assert (0 < inject_Z (Z.of_nat (List.length l))) as Hpos.
  { change 0 with (inject_Z 0). rewrite <- Zlt_Qlt.
    destruct l; [congruence | simpl; lia]. }
  split.
  - apply Qle_shift_div_l; [exact Hpos | lra].
  - apply Qle_shift_div_r; [exact Hpos | lra].
Qed.

End Numbers.

(** ** The final scores and the best of them *)

Section Final.
Import Dict DictFacts.

Lemma fold_final_scores (d : Scores) :
  forall acc : Dict.t Q,
    NoDup (keys acc ++ keys d) ->
    (forall k l, In (k, l) d -> l <> []) ->
    fold_left
      (fun final_predictions (item : string * list Q) =>
         let (category, scores) := item in
         match top_scores scores with
         | [] => final_predictions
         | _ :: _ => set final_predictions category (mean (top_scores scores))
         end) d acc =
    acc ++ map final_entry d.
Proof.
  induction d as [|[k l] d IH]; intros acc Hnd Hne; simpl.
  - now rewrite app_nil_r.
  - assert (top_scores l <> []) as Ht.
    { apply top_scores_nonempty. apply (Hne k). now left. }
    destruct (top_scores l) as [|t ts] eqn:E; [congruence|].
    rewrite <- E. clear E Ht.
    assert (get acc k = None) as G.
    { apply get_None_iff. intros Hin.
      apply NoDup_remove_2 in Hnd. apply Hnd.
      apply in_or_app. now left. }
    rewrite (set_absent _ _ _ G), IH.
    + rewrite <- app_assoc. reflexivity.
    + unfold keys in *. rewrite map_app, <- app_assoc. exact Hnd.
    + intros k' l' Hin. apply (Hne k'). now right.
Qed.

Lemma final_scores_map (d : Scores) :
  NoDup (keys d) -> filled d -> final_scores d = map final_entry d.
Proof.
  intros Hnd Hf. unfold final_scores. rewrite fold_final_scores; auto.
  intros k l Hin ->. apply (Hf k). now apply In_get.
Qed.

Lemma get_map_final (d : Scores) (k : string) :
  get (map final_entry d) k =
  option_map (fun l => mean (top_scores l)) (get d k).
Proof.
  induction d as [|[k' l] d IH]; simpl; [reflexivity|].
  now destruct (String.eqb k k').
Qed.

Lemma aggregated_score_map (categories : CategoryMap) predictions :
  aggregated_score categories predictions =
  map final_entry (collect_scores categories predictions).
Proof.
  apply final_scores_map;
    [apply collect_scores_nodup | apply collect_scores_filled].
Qed.

(** AggregatedScore, key by key. *)
Lemma aggregated_score_get (categories : CategoryMap) predictions k :
  NoDup (keys categories) ->
  get (aggregated_score categories predictions) k =
  match matching_confidences categories predictions k with
  | [] => None
  | _ :: _ =>
      Some (mean (top_scores (matching_confidences categories predictions k)))
  end.
Proof.
  intros Hnd.
  rewrite aggregated_score_map, get_map_final, collect_scores_get_Some by auto.
  now destruct (matching_confidences categories predictions k).
Qed.

(** The keys of AggregatedScore come in first-seen order. *)
Lemma aggregated_score_keys (categories : CategoryMap) predictions :
  keys (aggregated_score categories predictions) =
  first_seen categories predictions.
Proof.
  rewrite aggregated_score_map, <- collect_scores_keys.
  unfold keys. rewrite map_map. reflexivity.
Qed.

Lemma max_by_score_fold (rest : list (string * Q)) :
  forall (before : list (string * Q)) (best : string * Q)
         (after : list (string * Q)),
    (forall x, In x before -> snd x < snd best) ->
    (forall x, In x after -> snd x <= snd best) ->
    exists before' after',
      before ++ best :: after ++ rest =
      before' ++ max_by_score best rest :: after'
      /\ (forall x, In x before' -> snd x < snd (max_by_score best rest))
      /\ (forall x, In x after' -> snd x <= snd (max_by_score best rest)).
Proof.
  unfold max_by_score.
  induction rest as [|x rest IH]; intros before best after Hb Ha; simpl.
  - exists before, after. now rewrite app_nil_r.
  - destruct (Qgt_bool (snd x) (snd best)) eqn:E.
    + apply Qgt_bool_iff in E.
      destruct (IH (before ++ best :: after) x []) as [b' [a' [Eq H]]].
      * intros y Hy. apply in_app_or in Hy as [Hy|[<-|Hy]].
        -- apply Qlt_trans with (snd best); auto.
        -- exact E.
        -- apply Qle_lt_trans with (snd best); auto.
      * intros y [].
      * exists b', a'. split; [|exact H].
        rewrite <- Eq, <- app_assoc. reflexivity.
    + apply Qgt_bool_false_iff in E.
      destruct (IH before best (after ++ [x])) as [b' [a' [Eq H]]].
      * exact Hb.
      * intros y Hy. apply in_app_or in Hy as [Hy|[<-|[]]]; auto.
      * exists b', a'. split; [|exact H].
        rewrite <- Eq, <- app_assoc. reflexivity.
Qed.

(** [max] returns the first of the items with the greatest score: every
    item before it has a strictly smaller score, no item after it a greater
    one. *)
Lemma max_by_score_spec (first : string * Q) (rest : list (string * Q)) :
  exists before after,
    first :: rest = before ++ max_by_score first rest :: after
    /\ (forall x, In x before -> snd x < snd (max_by_score first rest))
    /\ (forall x, In x after -> snd x <= snd (max_by_score first rest)).
Proof.
  destruct (max_by_score_fold rest [] first []) as [b [a H]];
    [intros x [] | intros x [] | now exists b, a].
Qed.

End Final.

(** * The claims *)

(** ** Label to category *)

Lemma animal_get (category : string) (keywords : list string) :
  In (category, keywords) ANIMAL_CATEGORIES ->
  Dict.get ANIMAL_CATEGORIES category = Some keywords.
Proof. apply DictFacts.In_get, DictFacts.animal_keys_nodup. Qed.

Lemma matching_confidences_ci (predictions : list Prediction)
    (category : string) (keywords : list string) :
  In (category, keywords) ANIMAL_CATEGORIES ->
  matching_confidences ANIMAL_CATEGORIES predictions category =
  map conf
    (filter (fun p => keyword_matches_ci keywords (label p)) predictions).
Proof.
  intros Hin. unfold matching_confidences. rewrite (animal_get _ _ Hin).
  f_equal. apply filter_ext. intros p.
  now apply animal_label_matches_ci with category.
Qed.

(** C1. For every raw prediction and every category of [ANIMAL_CATEGORIES],
    the inner loop of the aggregator appends the confidence of the prediction
    to the scores of the category if and only if some keyword of the category
    is a case-insensitive substring of the raw label; otherwise the scores of
    the category stay as they were. One label may go to several categories:
    ["lion_cub"] is stored under ["lion"] and under ["lion_cub"]. *)
Theorem C1_label_assigned_iff_keyword_ci
    (p : Prediction) (category : string) (keywords : list string)
    (pred_scores : Scores) :
  In (category, keywords) ANIMAL_CATEGORIES ->
  let before := Dict.get_default pred_scores category [] in
  let after :=
    Dict.get_default
      (collect_prediction ANIMAL_CATEGORIES (label p) (conf p) pred_scores)
      category [] in
  (after = before ++ [conf p] <->
   exists kw, In kw keywords /\ Str.contains_ci kw (label p) = true)
  /\ (after = before \/ after = before ++ [conf p])
  /\ (exists lbl c stored,
        stored = Dict.keys (collect_prediction ANIMAL_CATEGORIES lbl c [])
        /\ In "lion" stored /\ In "lion_cub" stored).
Proof.
  intros Hin before after.
  assert (after = before ++
            if keyword_matches_ci keywords (label p) then [conf p] else [])
    as E.
  { unfold after, before.
    rewrite collect_prediction_get by apply DictFacts.animal_keys_nodup.
    unfold added. rewrite (animal_get _ _ Hin).
    now rewrite (animal_label_matches_ci category keywords (label p) Hin). }
  rewrite <- keyword_matches_ci_iff.
  destruct (keyword_matches_ci keywords (label p)).
  - repeat split; auto.
    exists "lion_cub", 1, ["lion"; "lion_cub"].
    split; [reflexivity | simpl; tauto].
  - rewrite app_nil_r in E. repeat split; auto.
    + intros E'. rewrite E in E'.
      apply (f_equal (@List.length Q)) in E'.
      rewrite length_app in E'. simpl in E'. lia.
    + discriminate.
    + exists "lion_cub", 1, ["lion"; "lion_cub"].
      split; [reflexivity | simpl; tauto].
Qed.

Lemma C1_label_assigned_witness :
  let p := prediction_of "African_Lion" (9 # 10) in
  let before := Dict.get_default [("lion", [1 # 2])] "lion" [] in
  let after :=
    Dict.get_default
      (collect_prediction ANIMAL_CATEGORIES (label p) (conf p)
         [("lion", [1 # 2])])
      "lion" [] in
  (after = before ++ [conf p] <->
   exists kw,
     In kw ["lion"; "male_lion"; "lioness"; "African_lion"]
     /\ Str.contains_ci kw (label p) = true)
  /\ (after = before \/ after = before ++ [conf p])
  /\ (exists lbl c stored,
        stored = Dict.keys (collect_prediction ANIMAL_CATEGORIES lbl c [])
        /\ In "lion" stored /\ In "lion_cub" stored).
Proof.
  apply (C1_label_assigned_iff_keyword_ci
           (prediction_of "African_Lion" (9 # 10)) "lion"
           ["lion"; "male_lion"; "lioness"; "African_lion"]
           [("lion", [1 # 2])]).
  simpl. do 6 right. left. reflexivity.
Defined.

(** ** Top three and mean *)

Section WithMean.
Import Dict DictFacts.
Variable np_mean : list Q -> Q.




End WithMean.

(** With the exact mean for [np.mean], these are the scores of
    [aggregated_score]. *)
Lemma aggregated_score_with_mean (categories : CategoryMap)
    (predictions : list Prediction) :
  aggregated_score_with mean categories predictions =
  aggregated_score categories predictions.
Proof. reflexivity. Qed.




(** ** The methods as state transformers *)

Lemma predict_animal_eq (w : World) (img_path : Path) (st : State) :
  _predict_animal w img_path st =
  (match predict_animal_body w (animal_categories (self st)) img_path with
   | Returned r => r
   | Raised _ => (None, 0)
   end, st).
Proof.
  unfold _predict_animal, bind, get_self, ret.
  now destruct (predict_animal_body w (animal_categories (self st)) img_path).
Qed.

Lemma predict_landscape_eq (w : World) (img_path : Path) (st : State) :
  _predict_landscape w img_path st =
  (match predict_landscape_row w img_path with
   | Returned predictions =>
       detect_features (landscape_categories (self st)) predictions
   | Raised _ => []
   end, st).
Proof.
  unfold _predict_landscape, bind, get_self, ret.
  now destruct (predict_landscape_row w img_path).
Qed.

(** The prediction does not look at the calls made so far. *)
Lemma predict_animal_calls (w : World) (img_path : Path) (st : State)
    (cs : list Call) :
  fst (_predict_animal w img_path (mkState (self st) cs)) =
  fst (_predict_animal w img_path st).
Proof. now rewrite !predict_animal_eq. Qed.

Lemma backup_image_eq (w : World) (img_path : Path) (st : State) :
  _backup_image w img_path st =
  (match copy2 w img_path with Returned _ => true | Raised _ => false end,
   mkState (self st) (CopyToBackup img_path :: calls st)).
Proof.
  unfold _backup_image, bind, call, ret.
  now destruct (copy2 w img_path).
Qed.

(** A rejected image: the record and the state that [process_single_image]
    leaves. *)
Lemma process_rejected (w : World) (img_path : Path) (st : State)
    (animal_name : option string) (c : Q) :
  copy2 w img_path = Returned tt ->
  fst (_predict_animal w img_path st) = (animal_name, c) ->
  accepts animal_name c = false ->
  process_single_image w img_path st =
  (mkResults (name img_path) false None animal_name (Some c)
     (Some (fst (_predict_landscape w img_path st)))
     (Some "Low confidence prediction"),
   mkState (self st) (CopyToBackup img_path :: calls st)).
Proof.
  intros Hc Hp Ha.
  unfold process_single_image, bind at 1.
  rewrite backup_image_eq, Hc. change (negb true) with false. cbv iota.
  rewrite predict_animal_eq in Hp. simpl in Hp.
  unfold bind at 1. rewrite predict_animal_eq. cbn [self]. rewrite Hp.
  unfold bind at 1. rewrite !predict_landscape_eq. cbn [fst self].
  rewrite Ha. reflexivity.
Qed.

(** An accepted image: the record, the calls that [process_single_image]
    adds and the counter it leaves. *)
Lemma process_accepted (w : World) (img_path : Path) (st : State)
    (animal_name : option string) (c : Q) :
  copy2 w img_path = Returned tt ->
  fst (_predict_animal w img_path st) = (animal_name, c) ->
  accepts animal_name c = true ->
  let features := fst (_predict_landscape w img_path st) in
  let new_path :=
    fst (_generate_new_filename w img_path (format_name animal_name)
           features st) in
  process_single_image w img_path st =
  (match rename w img_path new_path with
   | Returned _ =>
       mkResults (name img_path) true (Some (name new_path)) animal_name
         (Some c) (Some features) None
   | Raised msg =>
       mkResults (name img_path) false None animal_name
         (Some c) (Some features) (Some msg)
   end,
   mkState
     (mkProcessor (S (processed_count (self st)))
        (animal_categories (self st)) (landscape_categories (self st)))
     (Rename img_path new_path
      :: InsertExif img_path (format_name animal_name) c
           (landscape_string ", " features) (now_iso w)
      :: CopyToBackup img_path :: calls st)).
Proof.
  intros Hc Hp Ha features new_path. subst features new_path.
  unfold process_single_image, bind at 1.
  rewrite backup_image_eq, Hc. change (negb true) with false. cbv iota.
  rewrite predict_animal_eq in Hp. simpl in Hp.
  unfold bind at 1. rewrite predict_animal_eq. cbn [self]. rewrite Hp.
  unfold bind at 1. rewrite !predict_landscape_eq. cbn [fst self].
  rewrite Ha.
  unfold _generate_new_filename, _add_metadata_tags, bind,
    increment_processed_count, call, ret. cbn [fst snd self calls].
  destruct (exif_insert w img_path);
    (destruct (rename w img_path _); reflexivity).
Qed.

(** ** The threshold gate *)

Lemma animal_keys_nonempty (category : string) :
  In category (Dict.keys ANIMAL_CATEGORIES) -> category <> "".
Proof.
  intros Hin.
  assert (forallb (fun k => negb (String.eqb k "")) (Dict.keys ANIMAL_CATEGORIES)
          = true) as H by (vm_compute; reflexivity).
  rewrite forallb_forall in H. specialize (H _ Hin).
  apply negb_true_iff, String.eqb_neq in H. exact H.
Qed.

Lemma accepts_iff (category : string) (c : Q) :
  category <> "" ->
  (accepts (Some category) c = true <-> threshold_for (Some category) < c).
Proof.
  intros Hne. unfold accepts, truthy.
  apply String.eqb_neq in Hne. rewrite Hne. simpl.
  apply Qgt_bool_iff.
Qed.

Lemma accepts_None (c : Q) : accepts None c = false.
Proof. reflexivity. Qed.

(** C3. For a classification result whose category is one of
    [ANIMAL_CATEGORIES], the gate of [process_single_image] accepts if and
    only if the confidence is strictly greater than the threshold: the entry
    of the category in [CONFIDENCE_THRESHOLDS], or the default 0.35 when it
    has none. A confidence equal to the threshold is rejected. Once the
    backup is made, the image is tagged and renamed (the calls are made)
    exactly when the gate accepts. *)
Theorem C3_gate_accepts_iff_strictly_above
    (w : World) (img_path : Path) (st : State) (category : string)
    (c : Q) :
  In category (Dict.keys ANIMAL_CATEGORIES) ->
  copy2 w img_path = Returned tt ->
  fst (_predict_animal w img_path st) = (Some category, c) ->
  let threshold :=
    match Dict.get CONFIDENCE_THRESHOLDS category with
    | Some t => t
    | None => 35 # 100
    end in
  (accepts (Some category) c = true <-> threshold < c)
  /\ (c == threshold -> accepts (Some category) c = false)
  /\ exists added,
       calls (snd (process_single_image w img_path st)) = added ++ calls st
       /\ existsb is_rename added = accepts (Some category) c
       /\ existsb is_insert_exif added = accepts (Some category) c.
Proof.
  intros Hin Hc Hp threshold.
  assert (threshold_for (Some category) = threshold) as T by reflexivity.
  pose proof (accepts_iff category c (animal_keys_nonempty _ Hin)) as A.
  rewrite T in A. split; [exact A|]. split.
  - intros E. apply not_true_is_false. rewrite A, E. apply Qlt_irrefl.
  - destruct (accepts (Some category) c) eqn:Acc.
    + rewrite (process_accepted w img_path st (Some category) c Hc Hp Acc).
      eexists [_; _; _]. repeat split.
    + rewrite (process_rejected w img_path st (Some category) c Hc Hp Acc).
      exists [CopyToBackup img_path]. repeat split.
Qed.

Lemma C3_gate_witness :
  let w := world_of lion_rows river_row in
  let c := 9 # 10 in
  (accepts (Some "lion") c = true <-> 35 # 100 < c)
  /\ (c == 35 # 100 -> accepts (Some "lion") c = false)
  /\ exists added,
       calls (snd (process_single_image w sample_image init)) =
         added ++ calls init
       /\ existsb is_rename added = accepts (Some "lion") c
       /\ existsb is_insert_exif added = accepts (Some "lion") c.
Proof.
  apply (C3_gate_accepts_iff_strictly_above (world_of lion_rows river_row)
           sample_image init "lion" (9 # 10)).
  - simpl. do 6 right. left. reflexivity.
  - reflexivity.
  - vm_compute. reflexivity.
Defined.

(** Without a backup there is no prediction: the record holds the error
    ["Backup failed"] and nothing else. *)
Lemma process_backup_failed (w : World) (img_path : Path) (st : State)
    (msg : string) :
  copy2 w img_path = Raised msg ->
  process_single_image w img_path st =
  (mkResults (name img_path) false None None None None
     (Some "Backup failed"),
   mkState (self st) (CopyToBackup img_path :: calls st)).
Proof.
  intros Hc. unfold process_single_image, bind at 1.
  rewrite backup_image_eq, Hc. reflexivity.
Qed.

(** The record holds the prediction as soon as one was made. *)
Lemma process_records_prediction (w : World) (img_path : Path) (st : State) :
  let results := fst (process_single_image w img_path st) in
  match confidence results with
  | Some c =>
      copy2 w img_path = Returned tt
      /\ fst (_predict_animal w img_path st) = (animal results, c)
  | None => exists msg, copy2 w img_path = Raised msg
  end.
Proof.
  destruct (copy2 w img_path) as [[]|msg] eqn:Hc.
  - destruct (fst (_predict_animal w img_path st)) as [a c] eqn:Hp.
    destruct (accepts a c) eqn:Acc.
    + rewrite (process_accepted w img_path st a c Hc Hp Acc). cbn [fst].
      destruct (rename w img_path _); simpl; auto.
    + rewrite (process_rejected w img_path st a c Hc Hp Acc). simpl. auto.
  - rewrite (process_backup_failed w img_path st msg Hc). simpl. eauto.
Qed.

(** C9. When the prediction of an image, as [process_single_image] records
    it, is rejected, because no category was detected or because the
    confidence is not strictly above the threshold that applies, the method
    makes no call that renames the file or writes its metadata (the backup
    copy is the only call it has made), leaves the counter as it was, and
    returns a record with [success = False], no new name and the error
    ["Low confidence prediction"]. *)
Theorem C9_rejected_image_is_left_alone
    (w : World) (img_path : Path) (st : State)
    (animal_name : option string) (c : Q) :
  let results := fst (process_single_image w img_path st) in
  let st' := snd (process_single_image w img_path st) in
  animal results = animal_name ->
  confidence results = Some c ->
  animal_name = None \/ c <= threshold_for animal_name ->
  success results = false
  /\ error results = Some "Low confidence prediction"
  /\ new_name results = None
  /\ calls st' = CopyToBackup img_path :: calls st
  /\ existsb is_rename (calls st') = existsb is_rename (calls st)
  /\ existsb is_insert_exif (calls st') = existsb is_insert_exif (calls st)
  /\ self st' = self st.
Proof.
  intros results st' Ha Hconf Hr.
  pose proof (process_records_prediction w img_path st) as R.
  cbv zeta in R. unfold results in Ha, Hconf.
  rewrite Hconf, Ha in R. destruct R as [Hc Hp].
  assert (accepts animal_name c = false) as Acc.
  { destruct Hr as [->|Hr]; [reflexivity|].
    unfold accepts. apply andb_false_iff. right.
    now apply Qgt_bool_false_iff. }
  subst results st'.
  rewrite (process_rejected w img_path st animal_name c Hc Hp Acc).
  repeat split.
Qed.

Lemma C9_rejected_witness :
  let w := world_of (lion_seen (35 # 100)) river_row in
  let results := fst (process_single_image w sample_image init) in
  let st' := snd (process_single_image w sample_image init) in
  success results = false
  /\ error results = Some "Low confidence prediction"
  /\ new_name results = None
  /\ calls st' = CopyToBackup sample_image :: calls init
  /\ existsb is_rename (calls st') = existsb is_rename (calls init)
  /\ existsb is_insert_exif (calls st') = existsb is_insert_exif (calls init)
  /\ self st' = self init.
Proof.
  apply (C9_rejected_image_is_left_alone
           (world_of (lion_seen (35 # 100)) river_row)
           sample_image init (Some "lion") (35 # 100)).
  - vm_compute. reflexivity.
  - vm_compute. reflexivity.
  - right. vm_compute. discriminate.
Defined.

(** ** Failing classifiers *)

Lemma run_models_returned (w : World) (img_path : Path)
    (model_names : list string) :
  forall acc,
    (forall m, In m model_names ->
               exists rows, predict_rows w m img_path = Returned rows) ->
    run_models w img_path model_names acc =
    Returned
      (acc ++
       flat_map
         (fun m =>
            match predict_rows w m img_path with
            | Returned rows => List.concat rows
            | Raised _ => []
            end) model_names).
Proof.
  induction model_names as [|m ms IH]; intros acc H; simpl.
  - now rewrite app_nil_r.
  - destruct (H m (or_introl eq_refl)) as [rows E]. rewrite E. simpl.
    rewrite IH, app_assoc; [reflexivity|].
    intros m' Hin. apply H. now right.
Qed.

Lemma run_models_raised (w : World) (img_path : Path)
    (model_names : list string) :
  forall acc,
    (exists m msg, In m model_names
                   /\ predict_rows w m img_path = Raised msg) ->
    exists msg, run_models w img_path model_names acc = Raised msg.
Proof.
  induction model_names as [|m ms IH]; intros acc [m' [msg [Hin E]]].
  - destruct Hin.
  - simpl. destruct (predict_rows w m img_path) as [rows|msg'] eqn:R; simpl.
    + apply IH. destruct Hin as [->|Hin]; [congruence|].
      now exists m', msg.
    + now exists msg'.
Qed.

(** When the three classifiers answer, their predictions are combined in the
    order of the loop and aggregated. *)
Lemma predict_animal_all_returned (w : World) (img_path : Path) (st : State) :
  (forall m, In m animal_models ->
             exists rows, predict_rows w m img_path = Returned rows) ->
  _predict_animal w img_path st =
  (aggregate (animal_categories (self st))
     (predictions_of_working_classifiers w img_path), st).
Proof.
  intros H. rewrite predict_animal_eq. unfold predict_animal_body.
  now rewrite (run_models_returned _ _ _ [] H).
Qed.

Lemma C4_counterexample :
  let w := world_resnet_fails lion_rows river_row in
  predict_rows w "resnet" sample_image = Raised "cannot identify image file"
  /\ aggregate ANIMAL_CATEGORIES
       (predictions_of_working_classifiers w sample_image) =
     (Some "lion", 9 # 10)
  /\ fst (_predict_animal w sample_image init) = (None, 0)
  /\ ~ failures_are_skipped.
Proof.
  split; [reflexivity|].
  split; [vm_compute; reflexivity|].
  split; [vm_compute; reflexivity|].
  intros H.
  specialize (H (world_resnet_fails lion_rows river_row) sample_image).
  vm_compute in H. discriminate.
Qed.

(** C4, as the code has it. The three classifiers run inside the one [try]
    block of [_predict_animal]. If one of them fails on an image, the method
    answers [(None, 0.0)]: nothing that another classifier predicted is
    aggregated. The failure does not leave the method and the state of the
    processor is untouched, so the image is not aborted: once the backup is
    made, [process_single_image] still computes the landscape features,
    records the empty prediction and rejects the image with
    ["Low confidence prediction"]. *)
Theorem C4_failing_classifier_voids_the_prediction
    (w : World) (img_path : Path) (st : State) :
  (exists model_name msg,
      In model_name animal_models
      /\ predict_rows w model_name img_path = Raised msg) ->
  _predict_animal w img_path st = ((None, 0), st)
  /\ (copy2 w img_path = Returned tt ->
      fst (process_single_image w img_path st) =
      mkResults (name img_path) false None None (Some 0)
        (Some (fst (_predict_landscape w img_path st)))
        (Some "Low confidence prediction")).
Proof.
  intros H.
  assert (_predict_animal w img_path st = (None, 0, st)) as E.
  { rewrite predict_animal_eq. unfold predict_animal_body.
    destruct (run_models_raised w img_path animal_models [] H) as [msg ->].
    reflexivity. }
  split; [exact E|].
  intros Hc.
  rewrite (process_rejected w img_path st None 0 Hc);
    [reflexivity | now rewrite E | reflexivity].
Qed.

Lemma C4_failing_classifier_witness :
  let w := world_resnet_fails lion_rows river_row in
  _predict_animal w sample_image init = ((None, 0), init)
  /\ fst (process_single_image w sample_image init) =
     mkResults (name sample_image) false None None (Some 0)
       (Some (fst (_predict_landscape w sample_image init)))
       (Some "Low confidence prediction").
Proof.
  destruct (C4_failing_classifier_voids_the_prediction
              (world_resnet_fails lion_rows river_row) sample_image init)
    as [H1 H2].
  - exists "resnet", "cannot identify image file".
    split; [simpl; tauto | reflexivity].
  - split; [exact H1 | apply H2; reflexivity].
Defined.

(** ** Nothing matches *)

Lemma existsb_false_forall {A : Type} (f : A -> bool) (l : list A) :
  (forall x, In x l -> f x = false) -> existsb f l = false.
Proof.
  intros H. apply not_true_is_false. rewrite existsb_exists.
  intros [x [Hin E]]. rewrite (H x Hin) in E. discriminate.
Qed.

Lemma filter_none {A : Type} (f : A -> bool) (l : list A) :
  (forall x, In x l -> f x = false) -> filter f l = [].
Proof.
  induction l as [|a l IH]; intros H; simpl; [reflexivity|].
  rewrite (H a (or_introl eq_refl)). apply IH. intros x Hx. apply H. now right.
Qed.

Lemma flat_map_none {A B : Type} (f : A -> list B) (l : list A) :
  (forall x, In x l -> f x = []) -> flat_map f l = [].
Proof.
  induction l as [|a l IH]; intros H; simpl; [reflexivity|].
  rewrite (H a (or_introl eq_refl)). apply IH. intros x Hx. apply H. now right.
Qed.

(** C5. If no raw label of the prediction list contains, case ignored, a
    keyword of a category of [ANIMAL_CATEGORIES], the aggregated scores are
    empty and the aggregator answers no category and the confidence 0.0. *)
Theorem C5_no_match_gives_none (predictions : list Prediction) :
  (forall p category keywords kw,
      In p predictions -> In (category, keywords) ANIMAL_CATEGORIES ->
      In kw keywords -> Str.contains_ci kw (label p) = false) ->
  aggregated_score ANIMAL_CATEGORIES predictions = []
  /\ aggregate ANIMAL_CATEGORIES predictions = (None, 0).
Proof.
  intros H.
  assert (aggregated_score ANIMAL_CATEGORIES predictions = []) as E.
  { pose proof (aggregated_score_keys ANIMAL_CATEGORIES predictions) as K.
    unfold first_seen in K. rewrite flat_map_none in K.
    - destruct (aggregated_score ANIMAL_CATEGORIES predictions);
        [reflexivity | discriminate].
    - intros p Hp. unfold matching_categories. rewrite filter_none;
        [reflexivity|].
      intros [category keywords] Hin. simpl.
      rewrite (animal_label_matches_ci category keywords (label p) Hin).
      apply existsb_false_forall. intros kw Hkw.
      now apply (H p category keywords kw). }
  split; [exact E|]. unfold aggregate. now rewrite E.
Qed.

Lemma C5_no_match_witness :
  let predictions :=
    [prediction_of "tabby" (9 # 10); prediction_of "Egyptian_cat" (8 # 10)] in
  aggregated_score ANIMAL_CATEGORIES predictions = []
  /\ aggregate ANIMAL_CATEGORIES predictions = (None, 0).
Proof.
  apply (C5_no_match_gives_none
           [prediction_of "tabby" (9 # 10);
            prediction_of "Egyptian_cat" (8 # 10)]).
  intros p category keywords kw Hp Hin Hkw.
  assert (forallb
            (fun q =>
               forallb
                 (fun item =>
                    forallb (fun k => negb (Str.contains_ci k (label q)))
                            (snd item))
                 ANIMAL_CATEGORIES)
            [prediction_of "tabby" (9 # 10);
             prediction_of "Egyptian_cat" (8 # 10)] = true) as F
    by (vm_compute; reflexivity).
  rewrite forallb_forall in F. specialize (F p Hp).
  rewrite forallb_forall in F. specialize (F _ Hin).
  rewrite forallb_forall in F. specialize (F kw Hkw).
  now apply negb_true_iff in F.
Defined.

(** ** Bounds *)

Lemma In_aggregated_score (predictions : list Prediction)
    (category : string) (score : Q) :
  In (category, score) (aggregated_score ANIMAL_CATEGORIES predictions) ->
  exists keywords,
    In (category, keywords) ANIMAL_CATEGORIES
    /\ let matching :=
         map conf
           (filter (fun p => keyword_matches_ci keywords (label p))
                   predictions) in
       matching <> [] /\ score = mean (top_scores matching).
Proof.
  intros Hin. rewrite aggregated_score_map in Hin.
  apply in_map_iff in Hin as [[k l] [E Hin]].
  injection E as -> <-. simpl.
  apply DictFacts.In_get in Hin; [|apply collect_scores_nodup].
  rewrite collect_scores_get_Some in Hin
    by apply DictFacts.animal_keys_nodup.
  unfold matching_confidences in Hin.
  destruct (Dict.get ANIMAL_CATEGORIES category) as [keywords|] eqn:G;
    [|discriminate].
  apply DictFacts.get_In in G. exists keywords. split; [exact G|].
  assert (forall q, label_matches keywords (label q) =
                    keyword_matches_ci keywords (label q)) as M.
  { intros q. now apply animal_label_matches_ci with category. }
  rewrite (filter_ext _ _ M) in Hin.
  destruct (map conf _) eqn:Em; [discriminate|].
  injection Hin as <-. split; [discriminate | reflexivity].
Qed.

(** C6. If every confidence of the raw prediction list is in [[0,1]], every
    value of the aggregated scores is in [[0,1]]; and a category has an
    aggregated score only if some raw prediction of the list matched one of
    its keywords. *)
Theorem C6_scores_bounded_and_supported (predictions : list Prediction)
    (category : string) (score : Q) :
  (forall p, In p predictions -> 0 <= conf p <= 1) ->
  In (category, score) (aggregated_score ANIMAL_CATEGORIES predictions) ->
  0 <= score <= 1
  /\ exists p keywords kw,
       In p predictions /\ In (category, keywords) ANIMAL_CATEGORIES
       /\ In kw keywords /\ Str.contains_ci kw (label p) = true.
Proof.
  intros Hb Hin.
  destruct (In_aggregated_score _ _ _ Hin) as [keywords [Hk [Hne ->]]].
  split.
  - apply mean_bounds; [now apply top_scores_nonempty|].
    intros x Hx. apply top_scores_In in Hx.
    apply in_map_iff in Hx as [p [<- Hp]]. apply filter_In in Hp as [Hp _].
    now apply Hb.
  - destruct (filter (fun p => keyword_matches_ci keywords (label p))
                     predictions) as [|p ps] eqn:F; [now elim Hne|].
    assert (In p (p :: ps)) as Hp by now left.
    rewrite <- F in Hp. apply filter_In in Hp as [Hp Hm].
    apply keyword_matches_ci_iff in Hm as [kw [Hkw Hc]].
    now exists p, keywords, kw.
Qed.

Lemma C6_scores_witness :
  0 <= 8 # 10 <= 1
  /\ exists p keywords kw,
       In p [prediction_of "LION" (8 # 10)]
       /\ In ("lion", keywords) ANIMAL_CATEGORIES
       /\ In kw keywords /\ Str.contains_ci kw (label p) = true.
Proof.
  apply (C6_scores_bounded_and_supported [prediction_of "LION" (8 # 10)]
           "lion" (8 # 10)).
  - intros p [<-|[]]. simpl. split; discriminate.
  - vm_compute. left. reflexivity.
Defined.

(** ** Determinism *)

(** C7. The aggregation is a function of the raw prediction list alone. Two
    runs of [_predict_animal] that collect the same list, whatever the image,
    the answers of the world and the state of the processor (its counter, the
    calls made so far), compute the same aggregated scores and return the
    same category and confidence; a run leaves the state as it found it, so
    that two runs in a row on one image return twice the same answer. *)
Theorem C7_aggregation_is_deterministic
    (w w' : World) (img_path img_path' : Path) (st st' : State)
    (predictions : list Prediction) :
  animal_categories (self st) = animal_categories (self st') ->
  run_models w img_path animal_models [] = Returned predictions ->
  run_models w' img_path' animal_models [] = Returned predictions ->
  aggregated_score (animal_categories (self st)) predictions =
  aggregated_score (animal_categories (self st')) predictions
  /\ _predict_animal w img_path st =
     (best_prediction
        (aggregated_score (animal_categories (self st)) predictions), st)
  /\ _predict_animal w' img_path' st' =
     (best_prediction
        (aggregated_score (animal_categories (self st)) predictions), st')
  /\ (first <- _predict_animal w img_path ;;
      second <- _predict_animal w img_path ;;
      ret (first, second)) st =
     (let r := fst (_predict_animal w img_path st) in ((r, r), st)).
Proof.
  intros Hc H H'. split; [now rewrite Hc|].
  unfold bind, ret. rewrite !predict_animal_eq. cbn [fst].
  unfold predict_animal_body. rewrite H, H', <- Hc. simpl.
  repeat split.
Qed.

Lemma C7_aggregation_witness :
  let w := world_of lion_rows river_row in
  let w' := world_of lion_rows [] in
  let img_path' := mkPath "elsewhere" "IMG_0002.png" ".png" in
  let st' := snd (process_single_image w sample_image init) in
  let predictions := predictions_of_working_classifiers w sample_image in
  aggregated_score (animal_categories (self init)) predictions =
  aggregated_score (animal_categories (self st')) predictions
  /\ _predict_animal w sample_image init =
     (best_prediction
        (aggregated_score (animal_categories (self init)) predictions), init)
  /\ _predict_animal w' img_path' st' =
     (best_prediction
        (aggregated_score (animal_categories (self init)) predictions), st')
  /\ (first <- _predict_animal w sample_image ;;
      second <- _predict_animal w sample_image ;;
      ret (first, second)) init =
     (let r := fst (_predict_animal w sample_image init) in ((r, r), init)).
Proof.
  apply (C7_aggregation_is_deterministic
           (world_of lion_rows river_row) (world_of lion_rows [])
           sample_image (mkPath "elsewhere" "IMG_0002.png" ".png")
           init
           (snd (process_single_image (world_of lion_rows river_row)
                   sample_image init))
           (predictions_of_working_classifiers
              (world_of lion_rows river_row) sample_image));
    vm_compute; reflexivity.
Defined.

(** ** The best category *)

(** C8. When the aggregated scores are not empty, the category returned is
    one with the greatest aggregated score, and the first such in the order
    in which the scores are iterated: every category before it has a
    strictly smaller score, no category after it a greater one. That order
    is the order in which the categories were first seen by the loops over
    the predictions and over the category map. *)
Theorem C8_best_is_first_argmax (categories : CategoryMap)
    (predictions : list Prediction) :
  aggregated_score categories predictions <> [] ->
  exists category score before after,
    aggregate categories predictions = (Some category, score)
    /\ aggregated_score categories predictions =
       before ++ (category, score) :: after
    /\ (forall c s, In (c, s) before -> s < score)
    /\ (forall c s, In (c, s) after -> s <= score)
    /\ Dict.keys (aggregated_score categories predictions) =
       first_seen categories predictions.
Proof.
  intros Hne. unfold aggregate.
  pose proof (aggregated_score_keys categories predictions) as K.
  destruct (aggregated_score categories predictions) as [|first rest];
    [congruence|].
  destruct (max_by_score_spec first rest) as [before [after [E [Hb Ha]]]].
  simpl. destruct (max_by_score first rest) as [category score].
  exists category, score, before, after. simpl in *.
  repeat split; auto.
  - intros c s Hin. exact (Hb _ Hin).
  - intros c s Hin. exact (Ha _ Hin).
Qed.

Lemma C8_best_witness :
  let predictions :=
    [prediction_of "zebra" (1 # 2); prediction_of "lion_cub" (3 # 4);
     prediction_of "hyena" (1 # 4)] in
  exists category score before after,
    aggregate ANIMAL_CATEGORIES predictions = (Some category, score)
    /\ aggregated_score ANIMAL_CATEGORIES predictions =
       before ++ (category, score) :: after
    /\ (forall c s, In (c, s) before -> s < score)
    /\ (forall c s, In (c, s) after -> s <= score)
    /\ Dict.keys (aggregated_score ANIMAL_CATEGORIES predictions) =
       first_seen ANIMAL_CATEGORIES predictions.
Proof.
  apply (C8_best_is_first_argmax ANIMAL_CATEGORIES
           [prediction_of "zebra" (1 # 2); prediction_of "lion_cub" (3 # 4);
            prediction_of "hyena" (1 # 4)]).
  vm_compute. discriminate.
Defined.

(** On a tie the first-seen category wins: ["lion_cub"] goes to ["lion"] and
    to ["lion_cub"] with the same score, and ["lion"] comes first in the
    category map. *)
Example tie_goes_to_first_seen :
  aggregated_score ANIMAL_CATEGORIES [prediction_of "lion_cub" (3 # 4)] =
    [("lion", 3 # 4); ("lion_cub", 3 # 4)]
  /\ aggregate ANIMAL_CATEGORIES [prediction_of "lion_cub" (3 # 4)] =
     (Some "lion", 3 # 4).
Proof. split; reflexivity. Qed.

(** ** Landscape features *)

Section Landscape.
Variable categories : CategoryMap.
Variable predictions : list Prediction.

Lemma detect_prediction_sound (p : Prediction) (some : CategoryMap) :
  In p predictions -> incl some categories ->
  forall detected_features,
    sound categories predictions detected_features ->
    sound categories predictions
      (detect_prediction some (Str.lower (label p)) (conf p)
         detected_features).
Proof.
  intros Hp. induction some as [|[category keywords] rest IH];
    intros Hincl detected [Hnd Ht]; cbn [detect_prediction].
  - split; assumption.
  - apply IH; [intros x Hx; apply Hincl; right; exact Hx|].
    destruct (existsb (fun keyword => Str.contains keyword (Str.lower (label p)))
                keywords) eqn:E; [|split; assumption].
    destruct (Qgt_bool (conf p) (threshold_at "landscape")) eqn:G;
      [|split; assumption].
    destruct (existsb (String.eqb category) detected) eqn:D;
      [split; assumption|].
    cbn [negb andb]. split.
    + apply NoDup_app; [exact Hnd | repeat constructor; intros [] |].
      intros x Hx [<-|[]].
      apply existsb_eqb_In in Hx. congruence.
    + apply Forall_app. split; [exact Ht|]. constructor; [|constructor].
      apply existsb_exists in E as [keyword [Hk Hc]].
      apply Qgt_bool_iff in G.
      exists keywords, p, keyword.
      split; [apply Hincl; left; reflexivity|].
      split; [exact Hp|]. split; [exact Hk|]. split; [exact Hc | exact G].
Qed.

Lemma fold_detect_sound (some : list Prediction) :
  incl some predictions ->
  forall detected_features,
    sound categories predictions detected_features ->
    sound categories predictions
      (fold_left
         (fun detected_features p =>
            detect_prediction categories (Str.lower (label p)) (conf p)
              detected_features)
         some detected_features).
Proof.
  induction some as [|p ps IH]; intros Hincl detected H; cbn [fold_left];
    [exact H|].
  apply IH; [intros x Hx; apply Hincl; right; exact Hx|].
  apply detect_prediction_sound; [|apply incl_refl | exact H].
  apply Hincl. left. reflexivity.
Qed.

Lemma detect_features_sound :
  sound categories predictions (detect_features categories predictions).
Proof.
  apply fold_detect_sound; [apply incl_refl|].
  split; constructor.
Qed.

End Landscape.

(** C10. The list returned by [_predict_landscape] has no duplicates, each
    of its entries is a key of [LANDSCAPE_CATEGORIES], and each entry comes
    with a prediction of the landscape model whose confidence is strictly
    greater than the landscape threshold 0.15 and whose label, lower-cased as
    the loop does before it looks, contains a keyword of that category. *)
Theorem C10_landscape_features_sound
    (w : World) (img_path : Path) (st : State) :
  landscape_categories (self st) = LANDSCAPE_CATEGORIES ->
  let detected_features := fst (_predict_landscape w img_path st) in
  NoDup detected_features
  /\ forall category,
       In category detected_features ->
       In category (Dict.keys LANDSCAPE_CATEGORIES)
       /\ exists predictions p keywords keyword,
            predict_landscape_row w img_path = Returned predictions
            /\ In p predictions
            /\ Dict.get LANDSCAPE_CATEGORIES category = Some keywords
            /\ In keyword keywords
            /\ Str.contains keyword (Str.lower (label p)) = true
            /\ Str.contains_ci keyword (label p) = true
            /\ 15 # 100 < conf p.
Proof.
  intros Hl detected_features. subst detected_features.
  rewrite predict_landscape_eq, Hl. simpl fst.
  destruct (predict_landscape_row w img_path) as [predictions|msg].
  - destruct (detect_features_sound LANDSCAPE_CATEGORIES predictions)
      as [Hnd Ht].
    split; [exact Hnd|].
    intros category Hin. rewrite Forall_forall in Ht.
    destruct (Ht _ Hin) as [keywords [p [keyword [Hk [Hp [Hkw [Hc Hq]]]]]]].
    split.
    + change category with (fst (category, keywords)). now apply in_map.
    + exists predictions, p, keywords, keyword. repeat split; auto.
      * apply DictFacts.In_get; [apply DictFacts.landscape_keys_nodup | auto].
      * unfold Str.contains_ci.
        assert (Str.lower keyword = keyword) as ->; [|exact Hc].
        assert (forallb
                  (fun item =>
                     forallb (fun k => String.eqb (Str.lower k) k) (snd item))
                  LANDSCAPE_CATEGORIES = true) as F
          by (vm_compute; reflexivity).
        rewrite forallb_forall in F. specialize (F _ Hk).
        rewrite forallb_forall in F. specialize (F _ Hkw).
        now apply String.eqb_eq.
  - split; [constructor | intros category []].
Qed.

Lemma C10_landscape_witness :
  let w := world_of lion_rows river_row in
  let detected_features := fst (_predict_landscape w sample_image init) in
  NoDup detected_features
  /\ forall category,
       In category detected_features ->
       In category (Dict.keys LANDSCAPE_CATEGORIES)
       /\ exists predictions p keywords keyword,
            predict_landscape_row w sample_image = Returned predictions
            /\ In p predictions
            /\ Dict.get LANDSCAPE_CATEGORIES category = Some keywords
            /\ In keyword keywords
            /\ Str.contains keyword (Str.lower (label p)) = true
            /\ Str.contains_ci keyword (label p) = true
            /\ 15 # 100 < conf p.
Proof.
  apply (C10_landscape_features_sound (world_of lion_rows river_row)
           sample_image init).
  reflexivity.
Defined.

Example landscape_of_river_row :
  fst (_predict_landscape (world_of lion_rows river_row) sample_image init) =
  ["river"; "valley"].
Proof. reflexivity. Qed.


(** * Further properties of the code *)

(** ** When the aggregator answers a category *)

Lemma best_prediction_In (final_predictions : Dict.t Q) (category : string)
    (score : Q) :
  best_prediction final_predictions = (Some category, score) ->
  In (category, score) final_predictions.
Proof.
  destruct final_predictions as [|first rest]; unfold best_prediction;
    [discriminate|].
  destruct (max_by_score_spec first rest) as [before [after [E _]]].
  intros [= Hc Hs]. rewrite E. apply in_or_app. right. left.
  destruct (max_by_score first rest). simpl in *. congruence.
Qed.

Lemma best_prediction_nonempty (final_predictions : Dict.t Q) :
  final_predictions <> [] ->
  exists category score,
    best_prediction final_predictions = (Some category, score).
Proof.
  destruct final_predictions as [|first rest]; [congruence|].
  intros _. simpl. eauto.
Qed.

(** X1. [_predict_animal]'s aggregation answers a category exactly when some
    raw label contains, case ignored, a keyword of some category of
    [ANIMAL_CATEGORIES]; the category answered is then a key of the map (so
    it is never the empty string), its confidence is the aggregated score of
    that category, and some prediction matched it. Otherwise the answer is
    [(None, 0.0)]. *)
Theorem X1_category_answered_iff_some_match (predictions : list Prediction) :
  ((exists p category keywords kw,
       In p predictions /\ In (category, keywords) ANIMAL_CATEGORIES
       /\ In kw keywords /\ Str.contains_ci kw (label p) = true)
   <-> exists category score,
         aggregate ANIMAL_CATEGORIES predictions = (Some category, score))
  /\ (forall category score,
        aggregate ANIMAL_CATEGORIES predictions = (Some category, score) ->
        In category (Dict.keys ANIMAL_CATEGORIES) /\ category <> ""
        /\ Dict.get (aggregated_score ANIMAL_CATEGORIES predictions) category
           = Some score)
  /\ (aggregate ANIMAL_CATEGORIES predictions = (None, 0)
      \/ exists category score,
           aggregate ANIMAL_CATEGORIES predictions = (Some category, score)).
Proof.
  assert (forall category score,
             aggregate ANIMAL_CATEGORIES predictions = (Some category, score) ->
             In (category, score)
                (aggregated_score ANIMAL_CATEGORIES predictions)) as HIn.
  { intros category score H. now apply best_prediction_In. }
  split; [split|split].
  - intros [p [category [keywords [kw [Hp [Hk [Hkw Hc]]]]]]].
    apply best_prediction_nonempty. intros E.
    pose proof (aggregated_score_get ANIMAL_CATEGORIES predictions category
                  DictFacts.animal_keys_nodup) as G.
    rewrite E, (matching_confidences_ci _ _ _ Hk) in G. simpl in G.
    assert (In p (filter (fun q => keyword_matches_ci keywords (label q))
                         predictions)) as F.
    { apply filter_In. split; [exact Hp|].
      apply keyword_matches_ci_iff. eauto. }
    destruct (filter _ predictions); [destruct F | discriminate].
  - intros [category [score H]]. apply HIn in H.
    destruct (In_aggregated_score _ _ _ H) as [keywords [Hk [Hne _]]].
    destruct (filter (fun p => keyword_matches_ci keywords (label p))
                     predictions) as [|p ps] eqn:F; [now elim Hne|].
    assert (In p (p :: ps)) as Hp by now left.
    rewrite <- F in Hp. apply filter_In in Hp as [Hp Hm].
    apply keyword_matches_ci_iff in Hm as [kw [Hkw Hc]].
    now exists p, category, keywords, kw.
  - intros category score H. apply HIn in H.
    destruct (In_aggregated_score _ _ _ H) as [keywords [Hk _]].
    assert (In category (Dict.keys ANIMAL_CATEGORIES)) as K.
    { change category with (fst (category, keywords)). now apply in_map. }
    split; [exact K|]. split; [now apply animal_keys_nonempty|].
    apply DictFacts.In_get; [|exact H].
    rewrite aggregated_score_keys. apply dedup_nodup.
  - unfold aggregate.
    destruct (aggregated_score ANIMAL_CATEGORIES predictions) as [|f r] eqn:E.
    + now left.
    + right. apply best_prediction_nonempty. discriminate.
Qed.

(** ** The scores do not depend on the order of the predictions *)

Section OrderOfPredictions.

Lemma eqlist_refl (l : list Q) : Forall2 Qeq l l.
Proof. induction l; constructor; [apply Qeq_refl | assumption]. Qed.

Lemma eqlist_trans (l1 l2 l3 : list Q) :
  Forall2 Qeq l1 l2 -> Forall2 Qeq l2 l3 -> Forall2 Qeq l1 l3.
Proof.
  intros H. revert l3. induction H as [|a b l1 l2 Hab H IH]; intros l3 H3.
  - exact H3.
  - inversion H3 as [|? c ? l3' Hbc H3']; subst.
    constructor; [now apply Qeq_trans with b | now apply IH].
Qed.

Lemma Qle_bool_eq_l (y y' x : Q) : y == y' -> Qle_bool y x = Qle_bool y' x.
Proof.
  intros E. apply eq_true_iff_eq. rewrite !Qle_bool_iff. now rewrite E.
Qed.

Lemma insert_desc_compat (x : Q) (l l' : list Q) :
  Forall2 Qeq l l' -> Forall2 Qeq (insert_desc x l) (insert_desc x l').
Proof.
  induction 1 as [|y y' l l' E H IH]; simpl.
  - apply eqlist_refl.
  - rewrite (Qle_bool_eq_l y y' x E).
    destruct (Qle_bool y' x).
    + constructor; [apply Qeq_refl|]. now constructor.
    + now constructor.
Qed.

Lemma Qle_bool_total (a b : Q) :
  Qle_bool a b = false -> Qle_bool b a = true.
Proof.
  intros H. apply Qle_bool_iff, Qlt_le_weak, Qnot_le_lt.
  rewrite <- Qle_bool_iff. congruence.
Qed.

Lemma Qle_bool_antisym (a b : Q) :
  Qle_bool a b = true -> Qle_bool b a = true -> a == b.
Proof. rewrite !Qle_bool_iff. apply Qle_antisym. Qed.

Lemma Qle_bool_trans (a b c : Q) :
  Qle_bool a b = true -> Qle_bool b c = true -> Qle_bool a c = true.
Proof. rewrite !Qle_bool_iff. apply Qle_trans. Qed.

(** Two insertions give the same list in either order, up to the
    representation of equal numbers. *)
Lemma insert_desc_comm (x y : Q) (l : list Q) :
  Forall2 Qeq (insert_desc x (insert_desc y l))
              (insert_desc y (insert_desc x l)).
Proof.
  induction l as [|z l IH]; simpl.
  - destruct (Qle_bool y x) eqn:A, (Qle_bool x y) eqn:B.
    + repeat constructor; now apply Qle_bool_antisym.
    + apply eqlist_refl.
    + apply eqlist_refl.
    + apply Qle_bool_total in A. congruence.
  - destruct (Qle_bool z y) eqn:Zy, (Qle_bool z x) eqn:Zx; simpl.
    + rewrite Zx, Zy.
      destruct (Qle_bool y x) eqn:A, (Qle_bool x y) eqn:B.
      * constructor; [now apply Qle_bool_antisym|].
        constructor; [symmetry; now apply Qle_bool_antisym|].
        apply eqlist_refl.
      * apply eqlist_refl.
      * apply eqlist_refl.
      * apply Qle_bool_total in A. congruence.
    + rewrite Zx, Zy.
      assert (Qle_bool y x = false) as ->; [|apply eqlist_refl].
      apply not_true_is_false. intros A.
      rewrite (Qle_bool_trans z y x Zy A) in Zx. discriminate.
    + rewrite Zx, Zy.
      assert (Qle_bool x y = false) as ->; [|apply eqlist_refl].
      apply not_true_is_false. intros A.
      rewrite (Qle_bool_trans z x y Zx A) in Zy. discriminate.
    + rewrite Zx, Zy. constructor; [apply Qeq_refl | exact IH].
Qed.

Lemma sorted_desc_permutation (l l' : list Q) :
  Permutation l l' -> Forall2 Qeq (sorted_desc l) (sorted_desc l').
Proof.
  induction 1 as [|x l l' _ IH|x y l|l1 l2 l3 _ IH1 _ IH2]; simpl.
  - constructor.
  - now apply insert_desc_compat.
  - apply insert_desc_comm.
  - now apply eqlist_trans with (sorted_desc l2).
Qed.

Lemma firstn_eqlist (n : nat) (l l' : list Q) :
  Forall2 Qeq l l' -> Forall2 Qeq (firstn n l) (firstn n l').
Proof.
  intros H. revert n. induction H; intros [|n]; simpl; constructor; auto.
Qed.

Lemma mean_eqlist (l l' : list Q) : Forall2 Qeq l l' -> mean l == mean l'.
Proof.
  intros H. unfold mean.
  assert (List.length l = List.length l') as <-
    by (induction H; simpl; congruence).
  assert (Qsum l == Qsum l') as ->; [|reflexivity].
  induction H as [|a b l l' E H IH]; simpl; [reflexivity|].
  now rewrite E, IH.
Qed.

Lemma filter_permutation {A : Type} (f : A -> bool) (l l' : list A) :
  Permutation l l' -> Permutation (filter f l) (filter f l').
Proof.
  induction 1 as [|x l l' _ IH|x y l|l1 l2 l3 _ IH1 _ IH2]; simpl.
  - constructor.
  - destruct (f x); [now constructor | exact IH].
  - destruct (f x), (f y); try reflexivity. apply perm_swap.
  - now transitivity (filter f l2).
Qed.

End OrderOfPredictions.

(** X3. The aggregated scores do not depend on the order in which the raw
    predictions were collected (the order of the models, of the augmented
    images, of the ten guesses): for two prediction lists that are
    permutations of each other, every category has a score for both or for
    none, and the two scores are equal. *)
Theorem X3_scores_independent_of_prediction_order
    (predictions predictions' : list Prediction) (category : string) :
  Permutation predictions predictions' ->
  match Dict.get (aggregated_score ANIMAL_CATEGORIES predictions) category,
        Dict.get (aggregated_score ANIMAL_CATEGORIES predictions') category
  with
  | Some score, Some score' => score == score'
  | None, None => True
  | _, _ => False
  end.
Proof.
  intros HP.
  rewrite !aggregated_score_get by apply DictFacts.animal_keys_nodup.
  unfold matching_confidences.
  destruct (Dict.get ANIMAL_CATEGORIES category) as [keywords|]; [|exact I].
  pose proof (Permutation_map conf
                (filter_permutation
                   (fun p => label_matches keywords (label p)) _ _ HP)) as HM.
  set (m := map conf (filter _ predictions)) in *.
  set (m' := map conf (filter _ predictions')) in *.
  assert (mean (top_scores m) == mean (top_scores m')) as E.
  { apply mean_eqlist, firstn_eqlist, sorted_desc_permutation, HM. }
  destruct m as [|a m0]; destruct m' as [|a' m0'].
  - exact I.
  - apply Permutation_nil in HM. discriminate.
  - apply Permutation_sym, Permutation_nil in HM. discriminate.
  - exact E.
Qed.

Lemma X3_scores_order_witness :
  match Dict.get (aggregated_score ANIMAL_CATEGORIES five_lions) "lion",
        Dict.get (aggregated_score ANIMAL_CATEGORIES (rev five_lions)) "lion"
  with
  | Some score, Some score' => score == score'
  | None, None => True
  | _, _ => False
  end.
Proof.
  apply (X3_scores_independent_of_prediction_order five_lions
           (rev five_lions) "lion").
  apply Permutation_rev.
Defined.

(** The category answered can depend on that order, through the tie-break. *)
Example tie_break_depends_on_order :
  aggregate ANIMAL_CATEGORIES
    [prediction_of "zebra" (1 # 2); prediction_of "hyena" (1 # 2)] =
    (Some "zebra", 1 # 2)
  /\ aggregate ANIMAL_CATEGORIES
       [prediction_of "hyena" (1 # 2); prediction_of "zebra" (1 # 2)] =
     (Some "hyena", 1 # 2).
Proof. split; reflexivity. Qed.

(** ** Every triggered landscape feature is detected *)

Lemma detect_prediction_mono (categories : CategoryMap) (lbl : string)
    (c : Q) (x : string) :
  forall detected_features,
    In x detected_features ->
    In x (detect_prediction categories lbl c detected_features).
Proof.
  induction categories as [|[category keywords] rest IH];
    intros detected Hin; cbn [detect_prediction]; [exact Hin|].
  apply IH.
  destruct (existsb (fun keyword => Str.contains keyword lbl) keywords);
    [|exact Hin].
  destruct (Qgt_bool c (threshold_at "landscape")
            && negb (existsb (String.eqb category) detected));
    [|exact Hin].
  apply in_or_app. now left.
Qed.

Lemma detect_prediction_complete (categories : CategoryMap) (lbl : string)
    (c : Q) (category : string) (keywords : list string) :
  In (category, keywords) categories ->
  existsb (fun keyword => Str.contains keyword lbl) keywords = true ->
  Qgt_bool c (threshold_at "landscape") = true ->
  forall detected_features,
    In category (detect_prediction categories lbl c detected_features).
Proof.
  intros Hin Hk Hc.
  induction categories as [|[category' keywords'] rest IH];
    intros detected; [destruct Hin|].
  cbn [detect_prediction]. destruct Hin as [E|Hin].
  - injection E as -> ->. rewrite Hk, Hc. apply detect_prediction_mono.
    destruct (existsb (String.eqb category) detected) eqn:D; cbn [negb andb].
    + now apply existsb_eqb_In.
    + apply in_or_app. right. now left.
  - now apply IH.
Qed.

Lemma fold_detect_mono (categories : CategoryMap)
    (predictions : list Prediction) (x : string) :
  forall detected_features,
    In x detected_features ->
    In x (fold_left
            (fun detected_features p =>
               detect_prediction categories (Str.lower (label p)) (conf p)
                 detected_features)
            predictions detected_features).
Proof.
  induction predictions as [|p ps IH]; intros detected Hin;
    cbn [fold_left]; [exact Hin|].
  apply IH. now apply detect_prediction_mono.
Qed.

Lemma detect_features_complete (categories : CategoryMap)
    (predictions : list Prediction) (category : string) :
  triggered categories predictions category ->
  In category (detect_features categories predictions).
Proof.
  intros [keywords [p [keyword [Hk [Hp [Hkw [Hc Hq]]]]]]].
  unfold detect_features. generalize (@nil string).
  induction predictions as [|q qs IH]; intros detected; [destruct Hp|].
  cbn [fold_left]. destruct Hp as [->|Hp].
  - apply fold_detect_mono.
    apply detect_prediction_complete with keywords; [exact Hk | |].
    + apply existsb_exists. now exists keyword.
    + now apply Qgt_bool_iff.
  - now apply IH.
Qed.

(** X4. When the landscape model answers, [_predict_landscape] returns a
    category of [LANDSCAPE_CATEGORIES] if and only if some prediction with a
    confidence strictly above 0.15 has a lower-cased label that contains a
    keyword of that category: nothing that qualifies is left out. The list
    has at most as many entries as there are categories. *)
Theorem X4_landscape_detected_iff_triggered
    (w : World) (img_path : Path) (st : State)
    (predictions : list Prediction) (category : string) :
  landscape_categories (self st) = LANDSCAPE_CATEGORIES ->
  predict_landscape_row w img_path = Returned predictions ->
  let detected_features := fst (_predict_landscape w img_path st) in
  (In category detected_features <->
   exists keywords p keyword,
     In (category, keywords) LANDSCAPE_CATEGORIES /\ In p predictions
     /\ In keyword keywords
     /\ Str.contains keyword (Str.lower (label p)) = true
     /\ 15 # 100 < conf p)
  /\ (List.length detected_features <= List.length LANDSCAPE_CATEGORIES)%nat.
Proof.
  intros Hl Hr detected_features. subst detected_features.
  rewrite predict_landscape_eq, Hl, Hr. cbn [fst].
  destruct (detect_features_sound LANDSCAPE_CATEGORIES predictions)
    as [Hnd Ht].
  split; [split|].
  - intros Hin. rewrite Forall_forall in Ht. exact (Ht _ Hin).
  - apply detect_features_complete.
  - rewrite <- (length_map fst LANDSCAPE_CATEGORIES).
    apply NoDup_incl_length; [exact Hnd|].
    intros x Hx. rewrite Forall_forall in Ht.
    destruct (Ht _ Hx) as [keywords [_ [_ [Hk _]]]].
    change x with (fst (x, keywords)). now apply in_map.
Qed.

Lemma X4_landscape_witness :
  let w := world_of lion_rows river_row in
  let detected_features := fst (_predict_landscape w sample_image init) in
  (In "valley" detected_features <->
   exists keywords p keyword,
     In ("valley", keywords) LANDSCAPE_CATEGORIES /\ In p river_row
     /\ In keyword keywords
     /\ Str.contains keyword (Str.lower (label p)) = true
     /\ 15 # 100 < conf p)
  /\ (List.length detected_features <= List.length LANDSCAPE_CATEGORIES)%nat.
Proof.
  apply (X4_landscape_detected_iff_triggered (world_of lion_rows river_row)
           sample_image init river_row "valley");
    reflexivity.
Defined.

(** X5. If the landscape model fails on the image, [_predict_landscape]
    returns the empty list and the image is processed all the same. With a
    prediction that passes the gate, the metadata call is made with the
    landscape ["general"]; and when the rename succeeds, the record has
    [success = True], no error, the empty feature list, and a new name whose
    landscape part is ["general"]. *)
Theorem X5_landscape_failure_gives_general
    (w : World) (img_path : Path) (st : State) (msg : string)
    (animal_name : option string) (c : Q) :
  predict_landscape_row w img_path = Raised msg ->
  copy2 w img_path = Returned tt ->
  fst (_predict_animal w img_path st) = (animal_name, c) ->
  accepts animal_name c = true ->
  (forall new_path, rename w img_path new_path = Returned tt) ->
  let new_name :=
    (format_name animal_name ++ "_general_" ++ today w ++ "_"
       ++ Str.format_04d (S (processed_count (self st)))
       ++ Str.lower (suffix img_path))%string in
  fst (_predict_landscape w img_path st) = []
  /\ fst (process_single_image w img_path st) =
     mkResults (name img_path) true (Some new_name) animal_name (Some c)
       (Some []) None
  /\ calls (snd (process_single_image w img_path st)) =
     Rename img_path
       (mkPath (parent img_path) new_name (Str.lower (suffix img_path)))
     :: InsertExif img_path (format_name animal_name) c "general" (now_iso w)
     :: CopyToBackup img_path :: calls st.
Proof.
  intros Hl Hc Hp Ha Hr new_name.
  assert (fst (_predict_landscape w img_path st) = []) as E
    by now rewrite predict_landscape_eq, Hl.
  pose proof (process_accepted w img_path st animal_name c Hc Hp Ha) as P.
  cbv zeta in P. rewrite E in P. rewrite P. cbn [fst snd calls].
  rewrite Hr. split; [exact E|]. split; reflexivity.
Qed.

Lemma X5_landscape_failure_witness :
  let w :=
    mkWorld (fun model_name _ => Returned (lion_rows model_name))
      (fun _ => Raised "cannot identify image file")
      (fun _ => Returned tt) (fun _ => Returned tt) (fun _ _ => Returned tt)
      "20240131" "2024-01-31T12:00:00" in
  fst (_predict_landscape w sample_image init) = []
  /\ fst (process_single_image w sample_image init) =
     mkResults "IMG_0001.JPG" true (Some "lion_general_20240131_0001.jpg")
       (Some "lion") (Some (9 # 10)) (Some []) None
  /\ calls (snd (process_single_image w sample_image init)) =
     [Rename sample_image
        (mkPath "safari" "lion_general_20240131_0001.jpg" ".jpg");
      InsertExif sample_image "lion" (9 # 10) "general" "2024-01-31T12:00:00";
      CopyToBackup sample_image].
Proof.
  apply (X5_landscape_failure_gives_general
           (mkWorld (fun model_name _ => Returned (lion_rows model_name))
              (fun _ => Raised "cannot identify image file")
              (fun _ => Returned tt) (fun _ => Returned tt)
              (fun _ _ => Returned tt)
              "20240131" "2024-01-31T12:00:00")
           sample_image init "cannot identify image file" (Some "lion")
           (9 # 10)).
  - reflexivity.
  - reflexivity.
  - vm_compute. reflexivity.
  - vm_compute. reflexivity.
  - intros new_path. reflexivity.
Defined.

(** ** The four outcomes of [process_single_image] *)

(** What one image adds to the call log and to the counter. *)
Lemma process_single_image_effect (w : World) (img_path : Path) (st : State) :
  let st' := snd (process_single_image w img_path st) in
  exists added,
    calls st' = added ++ calls st
    /\ processed_count (self st') =
       (processed_count (self st) + List.length (filter is_rename added))%nat
    /\ animal_categories (self st') = animal_categories (self st)
    /\ landscape_categories (self st') = landscape_categories (self st)
    /\ forall c, In c added ->
                 call_target c = img_path
                 /\ (is_write c = true -> copy2 w img_path = Returned tt).
Proof.
  destruct (copy2 w img_path) as [[]|msg] eqn:Hc.
  - destruct (fst (_predict_animal w img_path st)) as [a c] eqn:Hp.
    destruct (accepts a c) eqn:Acc.
    + rewrite (process_accepted w img_path st a c Hc Hp Acc). cbn [snd].
      eexists [_; _; _]. cbn [calls self processed_count animal_categories
                               landscape_categories].
      split; [reflexivity|]. split; [cbn; lia|].
      split; [reflexivity|]. split; [reflexivity|].
      intros x [<-|[<-|[<-|[]]]]; split; reflexivity.
    + rewrite (process_rejected w img_path st a c Hc Hp Acc). cbn [snd].
      exists [CopyToBackup img_path]. cbn [calls self].
      split; [reflexivity|]. split; [cbn; lia|].
      split; [reflexivity|]. split; [reflexivity|].
      intros x [<-|[]]. split; [reflexivity | discriminate].
  - rewrite (process_backup_failed w img_path st msg Hc). cbn [snd].
    exists [CopyToBackup img_path]. cbn [calls self].
    split; [reflexivity|]. split; [cbn; lia|].
    split; [reflexivity|]. split; [reflexivity|].
    intros x [<-|[]]. split; [reflexivity | discriminate].
Qed.

(** X6. Every record that [process_single_image] returns is consistent: it
    names the file it was made for; a record with [success = True] has no
    error, has a new name and holds a prediction that passes the threshold
    gate; a record with [success = False] has an error and no new name. *)
Theorem X6_result_record_is_consistent
    (w : World) (img_path : Path) (st : State) :
  let results := fst (process_single_image w img_path st) in
  original_name results = name img_path
  /\ (success results = true ->
      error results = None
      /\ (exists n, new_name results = Some n)
      /\ exists c, confidence results = Some c
                   /\ accepts (animal results) c = true)
  /\ (success results = false ->
      (exists e, error results = Some e) /\ new_name results = None).
Proof.
  destruct (copy2 w img_path) as [[]|msg] eqn:Hc.
  - destruct (fst (_predict_animal w img_path st)) as [a c] eqn:Hp.
    destruct (accepts a c) eqn:Acc.
    + rewrite (process_accepted w img_path st a c Hc Hp Acc). cbn [fst].
      destruct (rename w img_path _); cbn.
      * split; [reflexivity|]. split; [|discriminate].
        intros _. split; [reflexivity|]. split; [eauto|].
        exists c. now split.
      * split; [reflexivity|]. split; [discriminate|].
        intros _. split; [eauto | reflexivity].
    + rewrite (process_rejected w img_path st a c Hc Hp Acc). cbn.
      split; [reflexivity|]. split; [discriminate|].
      intros _. split; [eauto | reflexivity].
  - rewrite (process_backup_failed w img_path st msg Hc). cbn.
    split; [reflexivity|]. split; [discriminate|].
    intros _. split; [eauto | reflexivity].
Qed.

(** X7. If the backup copy fails, [process_single_image] stops there: the
    record holds the error ["Backup failed"] and no prediction, no landscape
    feature and no new name; the backup attempt is the only call made and
    the counter is unchanged. *)
Theorem X7_backup_failure_stops_processing
    (w : World) (img_path : Path) (st : State) (msg : string) :
  copy2 w img_path = Raised msg ->
  process_single_image w img_path st =
  (mkResults (name img_path) false None None None None
     (Some "Backup failed"),
   mkState (self st) (CopyToBackup img_path :: calls st)).
Proof.
  intros Hc. unfold process_single_image, bind at 1.
  rewrite backup_image_eq, Hc. reflexivity.
Qed.

Lemma X7_backup_failure_witness :
  let w := world_backup_fails lion_rows river_row in
  process_single_image w sample_image init =
  (mkResults (name sample_image) false None None None None
     (Some "Backup failed"),
   mkState (self init) (CopyToBackup sample_image :: calls init)).
Proof.
  apply (X7_backup_failure_stops_processing
           (world_backup_fails lion_rows river_row) sample_image init
           "No space left on device").
  reflexivity.
Defined.

(** X8. If the gate accepts but [img_path.rename] raises, the record has
    [success = False], no new name and [str(e)] as its error; by then the
    metadata call has been made on the file under its old name and the
    counter has been incremented, so the sequence number is used up. *)
Theorem X8_rename_failure_is_reported
    (w : World) (img_path : Path) (st : State)
    (animal_name : option string) (c : Q) (msg : string) :
  copy2 w img_path = Returned tt ->
  fst (_predict_animal w img_path st) = (animal_name, c) ->
  accepts animal_name c = true ->
  (forall new_path, rename w img_path new_path = Raised msg) ->
  let results := fst (process_single_image w img_path st) in
  let st' := snd (process_single_image w img_path st) in
  success results = false
  /\ new_name results = None
  /\ error results = Some msg
  /\ animal results = animal_name /\ confidence results = Some c
  /\ processed_count (self st') = S (processed_count (self st))
  /\ exists new_path landscape_str,
       calls st' =
       Rename img_path new_path
       :: InsertExif img_path (format_name animal_name) c landscape_str
            (now_iso w)
       :: CopyToBackup img_path :: calls st.
Proof.
  intros Hc Hp Ha Hr results st'. subst results st'.
  rewrite (process_accepted w img_path st animal_name c Hc Hp Ha).
  cbn [fst snd]. rewrite Hr. cbn.
  repeat split. eexists. eexists. reflexivity.
Qed.

Lemma X8_rename_failure_witness :
  let w := world_rename_fails lion_rows river_row in
  let results := fst (process_single_image w sample_image init) in
  let st' := snd (process_single_image w sample_image init) in
  success results = false
  /\ new_name results = None
  /\ error results = Some "Permission denied"
  /\ animal results = Some "lion" /\ confidence results = Some (9 # 10)
  /\ processed_count (self st') = S (processed_count (self init))
  /\ exists new_path landscape_str,
       calls st' =
       Rename sample_image new_path
       :: InsertExif sample_image (format_name (Some "lion")) (9 # 10)
            landscape_str (now_iso w)
       :: CopyToBackup sample_image :: calls init.
Proof.
  apply (X8_rename_failure_is_reported
           (world_rename_fails lion_rows river_row) sample_image init
           (Some "lion") (9 # 10) "Permission denied").
  - reflexivity.
  - vm_compute. reflexivity.
  - vm_compute. reflexivity.
  - intros new_path. reflexivity.
Defined.

(** ** A whole directory *)

Lemma process_single_image_name (w : World) (img_path : Path) (st : State) :
  original_name (fst (process_single_image w img_path st)) = name img_path.
Proof.
  destruct (copy2 w img_path) as [[]|msg] eqn:Hc.
  - destruct (fst (_predict_animal w img_path st)) as [a c] eqn:Hp.
    destruct (accepts a c) eqn:Acc.
    + rewrite (process_accepted w img_path st a c Hc Hp Acc). cbn [fst].
      now destruct (rename w img_path _).
    + now rewrite (process_rejected w img_path st a c Hc Hp Acc).
  - now rewrite (process_backup_failed w img_path st msg Hc).
Qed.

Lemma process_loop_records (w : World) (image_files : list Path) :
  forall results st,
    map original_name (fst (process_loop w image_files results st)) =
    map original_name results ++ map name image_files.
Proof.
  induction image_files as [|img_path rest IH]; intros results st.
  - cbn. now rewrite app_nil_r.
  - cbn [process_loop]. unfold bind.
    pose proof (process_single_image_name w img_path st) as N.
    destruct (process_single_image w img_path st) as [result st1].
    rewrite IH, map_app, <- app_assoc. cbn in *. now rewrite N.
Qed.

Lemma process_loop_effect (w : World) (image_files : list Path) :
  forall results st,
    let st' := snd (process_loop w image_files results st) in
    exists added,
      calls st' = added ++ calls st
      /\ processed_count (self st') =
         (processed_count (self st) + List.length (filter is_rename added))%nat
      /\ animal_categories (self st') = animal_categories (self st)
      /\ landscape_categories (self st') = landscape_categories (self st)
      /\ forall c, In c added ->
                   In (call_target c) image_files
                   /\ (is_write c = true ->
                       copy2 w (call_target c) = Returned tt).
Proof.
  induction image_files as [|img_path rest IH]; intros results st.
  - exists []. cbn. repeat split; try lia; contradiction.
  - cbn [process_loop]. unfold bind.
    destruct (process_single_image_effect w img_path st)
      as [a1 [C1 [N1 [A1 [L1 T1]]]]].
    destruct (process_single_image w img_path st) as [result st1].
    cbn [snd] in *.
    destruct (IH (results ++ [result]) st1) as [a2 [C2 [N2 [A2 [L2 T2]]]]].
    exists (a2 ++ a1).
    split; [now rewrite C2, C1, app_assoc|].
    split; [rewrite N2, N1, filter_app, length_app; lia|].
    split; [congruence|]. split; [congruence|].
    intros c Hin. apply in_app_or in Hin as [Hin|Hin].
    + destruct (T2 c Hin) as [H1 H2]. split; [now right | exact H2].
    + destruct (T1 c Hin) as [H1 H2]. rewrite H1.
      split; [now left | exact H2].
Qed.

(** X9. [process_images] returns one record for every file of the listing
    whose suffix, case ignored, is [.jpg], [.jpeg] or [.png], in the order of
    the listing, and no record for any other entry: a failure on one image
    (backup, classifier or rename) never ends the loop. *)
Theorem X9_one_record_per_supported_file
    (w : World) (listing : list Path) (st : State) :
  let results := fst (process_images w listing st) in
  map original_name results = map name (filter supported listing)
  /\ List.length results = List.length (filter supported listing)
  /\ forall f, In f listing ->
       (supported f = true <->
        Str.lower (suffix f) = ".jpg" \/ Str.lower (suffix f) = ".jpeg"
        \/ Str.lower (suffix f) = ".png").
Proof.
  intros results. subst results. unfold process_images.
  pose proof (process_loop_records w (filter supported listing) [] st) as R.
  cbn [map app] in R. split; [exact R|]. split.
  - apply (f_equal (@List.length string)) in R.
    now rewrite !length_map in R.
  - intros f _. unfold supported, SUPPORTED_EXTENSIONS. cbn [existsb].
    rewrite !orb_true_iff, !String.eqb_eq.
    split; [intros [H|[H|[H|H]]]; auto; discriminate | tauto].
Qed.

(** X10. Over a whole run of [process_images], every call is made on a
    supported file of the listing, a file is tagged or renamed only if its
    backup copy succeeded, the counter grows by exactly the number of rename
    calls, and the category maps of the processor are left as they were. *)
Theorem X10_run_only_writes_backed_up_files
    (w : World) (listing : list Path) (st : State) :
  let st' := snd (process_images w listing st) in
  exists added,
    calls st' = added ++ calls st
    /\ processed_count (self st') =
       (processed_count (self st) + List.length (filter is_rename added))%nat
    /\ animal_categories (self st') = animal_categories (self st)
    /\ landscape_categories (self st') = landscape_categories (self st)
    /\ forall c, In c added ->
         In (call_target c) listing
         /\ supported (call_target c) = true
         /\ (is_write c = true -> copy2 w (call_target c) = Returned tt).
Proof.
  intros st'. subst st'. unfold process_images.
  destruct (process_loop_effect w (filter supported listing) [] st)
    as [added [C [N [A [L T]]]]].
  exists added. repeat split; auto;
    destruct (T c H) as [Hin Hw]; auto;
    apply filter_In in Hin; tauto.
Qed.

Example process_sample_listing :
  let run := process_images (world_of lion_rows river_row) sample_listing init in
  map original_name (fst run) = ["IMG_0001.JPG"; "IMG_0002.png"]
  /\ map new_name (fst run) =
     [Some "lion_river_valley_20240131_0001.jpg";
      Some "lion_river_valley_20240131_0002.png"]
  /\ processed_count (self (snd run)) = 2%nat.
Proof. vm_compute. repeat split. Qed.


(** ** The sequence number and the new file name *)

Section FileNames.

Lemma string_length_append (a b : string) :
  String.length (a ++ b) = (String.length a + String.length b)%nat.
Proof. induction a; simpl; congruence. Qed.

Lemma zeros_length (k : nat) : String.length (Str.zeros k) = k.
Proof. induction k; simpl; congruence. Qed.

Lemma zeros_digits (k : nat) (d : Decimal.uint) :
  (Str.zeros k ++ NilEmpty.string_of_uint d)%string =
  NilEmpty.string_of_uint (Nat.iter k Decimal.D0 d).
Proof. induction k; simpl; congruence. Qed.

Lemma of_uint_leading_zeros (k : nat) (d : Decimal.uint) :
  Nat.of_uint (Nat.iter k Decimal.D0 d) = Nat.of_uint d.
Proof. induction k; simpl; [reflexivity | exact IHk]. Qed.

Lemma format_04d_read (n : nat) :
  option_map Nat.of_uint (NilEmpty.uint_of_string (Str.format_04d n)) = Some n.
Proof.
  unfold Str.format_04d. rewrite zeros_digits, NilEmpty.usu. simpl.
  now rewrite of_uint_leading_zeros, Unsigned.of_to.
Qed.

Lemma format_04d_inj (n m : nat) :
  Str.format_04d n = Str.format_04d m -> n = m.
Proof.
  intros E. pose proof (format_04d_read n) as Hn.
  rewrite E, format_04d_read in Hn. congruence.
Qed.

Lemma occurs_append (c : ascii) (a b : string) :
  occurs c (a ++ b) = occurs c a || occurs c b.
Proof. induction a; simpl; [reflexivity|]. now rewrite IHa, orb_assoc. Qed.

Lemma digits_no_underscore (d : Decimal.uint) :
  occurs "_" (NilEmpty.string_of_uint d) = false.
Proof. induction d; simpl; auto. Qed.

Lemma format_04d_no_underscore (n : nat) :
  occurs "_" (Str.format_04d n) = false.
Proof.
  unfold Str.format_04d. rewrite zeros_digits. apply digits_no_underscore.
Qed.

(** A string is cut in one way only at its last underscore. *)
Lemma cut_at_last_underscore (x y s1 s2 : string) :
  occurs "_" s1 = false -> occurs "_" s2 = false ->
  (x ++ String "_" s1 = y ++ String "_" s2)%string -> s1 = s2.
Proof.
  intros H1 H2. revert y.
  induction x as [|c x IH]; intros [|c' y] E; simpl in E.
  - now injection E.
  - injection E as _ E. rewrite E, occurs_append in H1. simpl in H1.
    now rewrite orb_true_r in H1.
  - injection E as _ E. rewrite <- E, occurs_append in H2. simpl in H2.
    now rewrite orb_true_r in H2.
  - injection E as _ E. now apply IH with y.
Qed.

Lemma append_cancel_r (a b e : string) :
  (a ++ e = b ++ e)%string -> a = b.
Proof.
  revert b. induction a as [|c a IH]; intros [|c' b] E; simpl in E.
  - reflexivity.
  - apply (f_equal String.length) in E. simpl in E.
    rewrite string_length_append in E. lia.
  - apply (f_equal String.length) in E. simpl in E.
    rewrite string_length_append in E. lia.
  - injection E as -> E. f_equal. now apply IH.
Qed.

Lemma new_name_shape (w : World) (original_path : Path)
    (animal_name : string) (features : list string) (st : State) :
  name (fst (_generate_new_filename w original_path animal_name features st))
  = ((animal_name ++ "_" ++ landscape_string "_" features ++ "_" ++ today w)
       ++ String "_" (Str.format_04d (S (processed_count (self st))))
       ++ Str.lower (suffix original_path))%string.
Proof.
  unfold _generate_new_filename, bind, increment_processed_count, ret.
  cbn [fst name]. simpl append.
  rewrite !StrFacts.append_assoc. simpl append.
  rewrite !StrFacts.append_assoc. reflexivity.
Qed.

End FileNames.

(** X11. The sequence part [f"{n:04d}"] of a new file name has at least
    four characters, exactly four for a count below 10000; read as a decimal
    number it gives the count back, so different counts never give the same
    sequence. *)
Theorem X11_sequence_number_round_trip (n m : nat) :
  option_map Nat.of_uint (NilEmpty.uint_of_string (Str.format_04d n)) = Some n
  /\ (Str.format_04d n = Str.format_04d m -> n = m)
  /\ (4 <= String.length (Str.format_04d n))%nat
  /\ ((n < 10000)%nat -> String.length (Str.format_04d n) = 4%nat).
Proof.
  split; [apply format_04d_read|]. split; [apply format_04d_inj|]. split.
  - unfold Str.format_04d. rewrite string_length_append, zeros_length. lia.
  - intros Hn.
    assert (forallb
              (fun k => Nat.eqb (String.length (Str.format_04d k)) 4)
              (seq 0 10000) = true) as F by (vm_compute; reflexivity).
    rewrite forallb_forall in F.
    apply Nat.eqb_eq, F, in_seq. lia.
Qed.

(** X12. Two calls of [_generate_new_filename] made at different values of
    the counter, for files with the same extension (case ignored), give
    different names, whatever the animal, the landscape features and the
    date: within a run a renamed file is never given the name of an earlier
    one. Each call increments the counter by one. *)
Theorem X12_new_names_do_not_collide
    (w1 w2 : World) (path1 path2 : Path) (animal1 animal2 : string)
    (features1 features2 : list string) (st1 st2 : State) :
  Str.lower (suffix path1) = Str.lower (suffix path2) ->
  processed_count (self st1) <> processed_count (self st2) ->
  name (fst (_generate_new_filename w1 path1 animal1 features1 st1)) <>
  name (fst (_generate_new_filename w2 path2 animal2 features2 st2))
  /\ processed_count
       (self (snd (_generate_new_filename w1 path1 animal1 features1 st1)))
     = S (processed_count (self st1)).
Proof.
  intros Hs Hn. split; [|reflexivity].
  rewrite !new_name_shape, Hs. intros E.
  rewrite <- !StrFacts.append_assoc in E.
  apply append_cancel_r in E.
  apply cut_at_last_underscore in E;
    try apply format_04d_no_underscore.
  apply format_04d_inj in E. congruence.
Qed.

Lemma X12_new_names_witness :
  let st2 := snd (process_single_image (world_of lion_rows river_row)
                    sample_image init) in
  name (fst (_generate_new_filename (world_of lion_rows river_row)
               sample_image "lion" ["river"] init)) <>
  name (fst (_generate_new_filename (world_of lion_rows river_row)
               (mkPath "safari" "IMG_0003.jpg" ".jpg") "lion" ["river"] st2))
  /\ processed_count
       (self (snd (_generate_new_filename (world_of lion_rows river_row)
                     sample_image "lion" ["river"] init)))
     = S (processed_count (self init)).
Proof.
  apply (X12_new_names_do_not_collide
           (world_of lion_rows river_row) (world_of lion_rows river_row)
           sample_image (mkPath "safari" "IMG_0003.jpg" ".jpg")
           "lion" "lion" ["river"] ["river"] init
           (snd (process_single_image (world_of lion_rows river_row)
                   sample_image init))).
  - reflexivity.
  - vm_compute. discriminate.
Defined.

(** ** Statistics over the records *)

Section Statistics.
Variable float_add : Q -> Q -> Q.
Variable float_div : Q -> nat -> Q.

Lemma bump_get (d : Dict.t nat) (k k' : string) :
  Dict.get_default (bump d k) k' 0%nat =
  (Dict.get_default d k' 0 + if String.eqb k k' then 1 else 0)%nat.
Proof.
  unfold bump, Dict.get_default.
  destruct (String.eqb k k') eqn:E.
  - apply String.eqb_eq in E. subst k'.
    now rewrite DictFacts.get_set_same.
  - apply String.eqb_neq in E.
    rewrite DictFacts.get_set_other by congruence. lia.
Qed.

(** The test that a record is counted under the key [k] of a histogram over
    the field [field]. *)
Lemma tally_field_count (field : Results -> option string)
    (proj : Tally -> Dict.t nat) (k : string) (results : list Results) :
  (forall t r,
      proj (tally_result float_add t r) =
      if truthy (field r) then bump (proj t) (format_name (field r))
      else proj t) ->
  k <> "" ->
  forall t,
    Dict.get_default
      (proj (fold_left (tally_result float_add) results t)) k 0%nat =
    (Dict.get_default (proj t) k 0
     + count_if
         (fun r => match field r with
                   | Some x => String.eqb x k
                   | None => false
                   end) results)%nat.
Proof.
  intros Hstep Hk. unfold count_if.
  induction results as [|r rs IH]; intros t; cbn [fold_left filter].
  - cbn. lia.
  - rewrite IH, Hstep. clear IH.
    destruct (field r) as [x|] eqn:F; cbn [truthy format_name].
    + destruct (String.eqb x "") eqn:E; cbn [negb].
      * apply String.eqb_eq in E. subst x.
        assert (String.eqb "" k = false) as ->
          by (apply String.eqb_neq; congruence).
        lia.
      * rewrite bump_get. destruct (String.eqb x k); cbn [List.length]; lia.
    + lia.
Qed.

Lemma count_if_split (test : Results -> bool) (results : list Results) :
  (count_if test results + count_if (fun r => negb (test r)) results)%nat =
  List.length results.
Proof.
  unfold count_if. induction results as [|r rs IH]; simpl; [reflexivity|].
  destruct (test r); simpl; lia.
Qed.

(** The confidences that enter the average, and how they are added. *)
Lemma tally_confidences (results : list Results) :
  forall t,
    let t' := fold_left (tally_result float_add) results t in
    let counted :=
      flat_map
        (fun r => match confidence r with
                  | Some c => if Qeq_bool c 0 then [] else [c]
                  | None => []
                  end) results in
    confidence_count t' = (confidence_count t + List.length counted)%nat
    /\ total_confidence t' = fold_left float_add counted (total_confidence t).
Proof.
  induction results as [|r rs IH]; intros t; cbn [fold_left flat_map].
  - cbn. split; [lia | reflexivity].
  - destruct (IH (tally_result float_add t r)) as [C S]. cbv zeta in *.
    rewrite C, S. clear IH C S.
    unfold tally_result. cbn [confidence_count total_confidence].
    destruct (confidence r) as [c|]; cbn [truthy_confidence].
    + destruct (Qeq_bool c 0); cbn [negb app List.length fold_left
                                      confidence_count total_confidence].
      * split; [lia | reflexivity].
      * split; [lia | reflexivity].
    + cbn [app confidence_count total_confidence].
      split; [lia | reflexivity].
Qed.

End Statistics.

(** X13. In the statistics of [analyze_results], [successful] and [failed]
    add up to [total], which is the number of records; the entry of an
    animal in the histogram [animals] is the number of records with that
    animal, and the entry of an error message in [error_types] the number
    of records with that error (an animal or an error never seen has no
    entry and counts as 0). *)
Theorem X13_statistics_count_the_records
    (float_add : Q -> Q -> Q) (float_div : Q -> nat -> Q)
    (results : list Results) (k : string) :
  k <> "" ->
  let stats := analyze_results float_add float_div results in
  total stats = List.length results
  /\ (successful stats + failed stats)%nat = total stats
  /\ Dict.get_default (animals stats) k 0%nat =
     count_if (fun r => match animal r with
                        | Some x => String.eqb x k
                        | None => false
                        end) results
  /\ Dict.get_default (error_types stats) k 0%nat =
     count_if (fun r => match error r with
                        | Some x => String.eqb x k
                        | None => false
                        end) results.
Proof.
  intros Hk stats. subst stats. unfold analyze_results.
  cbn [total successful failed animals error_types].
  split; [reflexivity|]. split; [apply count_if_split|]. split.
  - rewrite (tally_field_count float_add animal tally_animals k results);
      [reflexivity | | exact Hk].
    intros t r. unfold tally_result.
    now destruct (confidence r) as [c|]; [destruct (truthy_confidence _)|].
  - rewrite (tally_field_count float_add error tally_error_types k results);
      [reflexivity | | exact Hk].
    intros t r. unfold tally_result.
    now destruct (confidence r) as [c|]; [destruct (truthy_confidence _)|].
Qed.

Lemma X13_statistics_witness :
  let results :=
    fst (process_images (world_of lion_rows river_row) sample_listing init) in
  let stats := analyze_results Qplus (fun x n => x / inject_Z (Z.of_nat n))
                 results in
  total stats = List.length results
  /\ (successful stats + failed stats)%nat = total stats
  /\ Dict.get_default (animals stats) "lion" 0%nat =
     count_if (fun r => match animal r with
                        | Some x => String.eqb x "lion"
                        | None => false
                        end) results
  /\ Dict.get_default (error_types stats) "lion" 0%nat =
     count_if (fun r => match error r with
                        | Some x => String.eqb x "lion"
                        | None => false
                        end) results.
Proof.
  apply (X13_statistics_count_the_records
           Qplus (fun x n => x / inject_Z (Z.of_nat n))
           (fst (process_images (world_of lion_rows river_row)
                   sample_listing init)) "lion").
  discriminate.
Defined.

(** X14. [avg_confidence] is computed from the recorded confidences that
    are not zero, and from them only: records without a prediction (backup
    failed) and records without a detection (confidence 0.0) are left out.
    It is the sum of those confidences, added from the first record to the
    last with the addition of Python floats, divided by their number, and it
    is 0.0 when there is none. *)
Theorem X14_average_confidence
    (float_add : Q -> Q -> Q) (float_div : Q -> nat -> Q)
    (results : list Results) :
  let counted :=
    flat_map
      (fun r => match confidence r with
                | Some c => if Qeq_bool c 0 then [] else [c]
                | None => []
                end) results in
  avg_confidence (analyze_results float_add float_div results) =
  match counted with
  | [] => 0
  | _ :: _ => float_div (fold_left float_add counted 0) (List.length counted)
  end.
Proof.
  intros counted. unfold analyze_results. cbn [avg_confidence].
  destruct (tally_confidences float_add results (mkTally [] [] 0 0%nat []))
    as [C S].
  cbv zeta in C, S. cbn [confidence_count total_confidence] in C, S.
  fold counted in C, S. rewrite C, S. cbn [Nat.add].
  now destruct counted.
Qed.

Example average_leaves_out_undetected :
  let results :=
    [mkResults "a.jpg" true (Some "lion_general_20240131_0001.jpg")
       (Some "lion") (Some (9 # 10)) (Some []) None;
     mkResults "b.jpg" false None None (Some 0) (Some [])
       (Some "Low confidence prediction");
     mkResults "c.jpg" false None None None None (Some "Backup failed")] in
  forall float_add float_div,
    avg_confidence (analyze_results float_add float_div results) =
    float_div (float_add 0 (9 # 10)) 1%nat.
Proof. reflexivity. Qed.

(** ** The status shown in preview mode *)

(** X15. The status that [image_tester] shows ([confidence > 0.35]) agrees
    with the threshold gate of [process_single_image] for every category of
    [ANIMAL_CATEGORIES] except ["bird"] and ["lion_cub"]. For ["bird"]
    (threshold 0.4) the preview accepts whatever the gate accepts, and more:
    0.38 is shown as accepted and then rejected. For ["lion_cub"] (threshold
    0.3) the gate accepts whatever the preview accepts, and more: 0.32 is
    shown as rejected and then accepted. *)
Theorem X15_preview_status_and_gate (category : string) (c : Q) :
  In category (Dict.keys ANIMAL_CATEGORIES) ->
  (category <> "bird" -> category <> "lion_cub" ->
   preview_accepted c = accepts (Some category) c)
  /\ (accepts (Some "bird") c = true -> preview_accepted c = true)
  /\ (preview_accepted c = true -> accepts (Some "lion_cub") c = true)
  /\ (preview_accepted (38 # 100) = true
      /\ accepts (Some "bird") (38 # 100) = false)
  /\ (preview_accepted (32 # 100) = false
      /\ accepts (Some "lion_cub") (32 # 100) = true).
Proof.
  intros Hin. split; [|split; [|split; [|split; split; reflexivity]]].
  - intros Hb Hl. simpl in Hin.
    repeat (destruct Hin as [<-|Hin]; [reflexivity || congruence|]).
    destruct Hin.
  - unfold accepts, preview_accepted. cbn [truthy String.eqb negb andb].
    rewrite !Qgt_bool_iff.
    change (threshold_for (Some "bird")) with (4 # 10). lra.
  - unfold accepts, preview_accepted. cbn [truthy String.eqb negb andb].
    rewrite !Qgt_bool_iff.
    change (threshold_for (Some "lion_cub")) with (3 # 10). lra.
Qed.

Lemma X15_preview_witness :
  (("zebra" : string) <> "bird" -> ("zebra" : string) <> "lion_cub" ->
   preview_accepted (1 # 2) = accepts (Some "zebra") (1 # 2))
  /\ (accepts (Some "bird") (1 # 2) = true -> preview_accepted (1 # 2) = true)
  /\ (preview_accepted (1 # 2) = true ->
      accepts (Some "lion_cub") (1 # 2) = true)
  /\ (preview_accepted (38 # 100) = true
      /\ accepts (Some "bird") (38 # 100) = false)
  /\ (preview_accepted (32 # 100) = false
      /\ accepts (Some "lion_cub") (32 # 100) = true).
Proof.
  apply (X15_preview_status_and_gate "zebra" (1 # 2)).
  simpl. do 5 right. left. reflexivity.
Defined.

(** ** The happy path *)

(** X16. When the three classifiers answer, [_predict_animal] pools all
    their predictions, every augmented image of every model with the same
    weight, in the order resnet, efficient, dense, and aggregates the pooled
    list; the state of the processor is not touched. *)
Theorem X16_predictions_of_all_models_are_pooled
    (w : World) (img_path : Path) (st : State)
    (resnet efficient dense : list (list Prediction)) :
  predict_rows w "resnet" img_path = Returned resnet ->
  predict_rows w "efficient" img_path = Returned efficient ->
  predict_rows w "dense" img_path = Returned dense ->
  _predict_animal w img_path st =
  (aggregate (animal_categories (self st))
     (List.concat resnet ++ List.concat efficient ++ List.concat dense),
   st).
Proof.
  intros H1 H2 H3. rewrite predict_animal_eq.
  unfold predict_animal_body, animal_models. cbn [run_models].
  rewrite H1. cbn [and_then]. rewrite H2. cbn [and_then].
  rewrite H3. cbn [and_then app]. now rewrite <- app_assoc.
Qed.

Lemma X16_pooled_witness :
  let w := world_of lion_rows river_row in
  _predict_animal w sample_image init =
  (aggregate (animal_categories (self init))
     (List.concat (lion_rows "resnet") ++ List.concat (lion_rows "efficient")
        ++ List.concat (lion_rows "dense")),
   init).
Proof.
  apply (X16_predictions_of_all_models_are_pooled
           (world_of lion_rows river_row) sample_image init
           (lion_rows "resnet") (lion_rows "efficient") (lion_rows "dense"));
    reflexivity.
Defined.

(** X17. When the backup succeeds, the gate accepts and the rename
    succeeds, the record has [success = True] and no error, and the new name
    is the animal, the landscape features joined by underscores (or
    ["general"]), the date, the counter after its increment on four digits
    and the lower-cased extension, joined by underscores; the file stays in
    its directory. The calls made are, in this order, the backup copy, the
    metadata with the features joined by [", "], and the rename. *)
Theorem X17_accepted_image_is_tagged_and_renamed
    (w : World) (img_path : Path) (st : State)
    (animal_name : string) (c : Q) :
  copy2 w img_path = Returned tt ->
  fst (_predict_animal w img_path st) = (Some animal_name, c) ->
  accepts (Some animal_name) c = true ->
  (forall new_path, rename w img_path new_path = Returned tt) ->
  let features := fst (_predict_landscape w img_path st) in
  let new_name :=
    (animal_name ++ "_" ++ landscape_string "_" features ++ "_" ++ today w
       ++ "_" ++ Str.format_04d (S (processed_count (self st)))
       ++ Str.lower (suffix img_path))%string in
  let new_path := mkPath (parent img_path) new_name
                    (Str.lower (suffix img_path)) in
  process_single_image w img_path st =
  (mkResults (name img_path) true (Some new_name) (Some animal_name)
     (Some c) (Some features) None,
   mkState
     (mkProcessor (S (processed_count (self st)))
        (animal_categories (self st)) (landscape_categories (self st)))
     (Rename img_path new_path
      :: InsertExif img_path animal_name c (landscape_string ", " features)
           (now_iso w)
      :: CopyToBackup img_path :: calls st)).
Proof.
  intros Hc Hp Ha Hr features new_name new_path.
  rewrite (process_accepted w img_path st (Some animal_name) c Hc Hp Ha).
  cbv zeta. rewrite Hr. reflexivity.
Qed.

Lemma X17_accepted_witness :
  let w := world_of lion_rows river_row in
  process_single_image w sample_image init =
  (mkResults "IMG_0001.JPG" true (Some "lion_river_valley_20240131_0001.jpg")
     (Some "lion") (Some (9 # 10)) (Some ["river"; "valley"]) None,
   mkState
     (mkProcessor 1 ANIMAL_CATEGORIES LANDSCAPE_CATEGORIES)
     [Rename sample_image
        (mkPath "safari" "lion_river_valley_20240131_0001.jpg" ".jpg");
      InsertExif sample_image "lion" (9 # 10) "river, valley"
        "2024-01-31T12:00:00";
      CopyToBackup sample_image]).
Proof.
  apply (X17_accepted_image_is_tagged_and_renamed
           (world_of lion_rows river_row) sample_image init "lion" (9 # 10)).
  - reflexivity.
  - vm_compute. reflexivity.
  - vm_compute. reflexivity.
  - intros new_path. reflexivity.
Defined.
